(** * Cantus front end: search query construction, result synchronisation,
      template loading and template bundling

    A shallow embedding of the JavaScript sources

    - the chant search controller ([getSearchField],
      [setSearchQueryOnBuilder], [search], [setRestriction]),
    - the notation search view ([newSearch], [resultFetchCallback],
      [zoomToResult], [renderResults], [clearResults]),
    - the Marionette template loader override ([loadTemplate]),
    - the template bundler ([writeBundle]),

    together with the properties the specification states about them.

    JavaScript strings are sequences of code units; they are modelled by
    [string], whose [String.length] plays the role of [.length]. *)

From Stdlib Require Import ZArith Ascii String Lia.
From stdpp Require Import base strings list gmap.

Local Open Scope Z_scope.

(* ===================================================================== *)
(** ** The JavaScript primitives the sources rely on *)
(* ===================================================================== *)

Module Js.

(** The values a search query takes at run time: absent, a string, or an
    array of strings. *)
Inductive value : Type :=
| Undefined
| Str (s : string)
| Arr (l : list string).

(** [!!v]: [undefined] and the empty string are falsy, every array is
    truthy (the empty one too). *)
Definition truthy (v : value) : bool :=
  match v with
  | Undefined => false
  | Str s => negb (String.eqb s EmptyString)
  | Arr _ => true
  end.

(** [_.isString]. *)
Definition isString (v : value) : bool :=
  match v with Str _ => true | _ => false end.

(** [s.length], as a JavaScript number. *)
Definition length (s : string) : Z := Z.of_nat (String.length s).

(** [s.split(sep)] for a one-character separator: never empty, the empty
    string yields one empty piece. *)
Fixpoint split (sep : ascii) (s : string) : list string :=
  match s with
  | EmptyString => [EmptyString]
  | String c rest =>
      if Ascii.eqb c sep then EmptyString :: split sep rest
      else match split sep rest with
           | [] => [String c EmptyString]
           | piece :: pieces => String c piece :: pieces
           end
  end.

(** [l.join(sep)] on an array of strings. *)
Definition join (sep : string) (l : list string) : string :=
  String.concat sep l.

(** [_.contains(list, item)]: a scan with strict equality. *)
Fixpoint contains (l : list string) (item : string) : bool :=
  match l with
  | [] => false
  | x :: l' => if String.eqb x item then true else contains l' item
  end.

(** The items [_.forEach(v, f)] visits: the elements of an array, the
    characters of a string, nothing for [undefined]. *)
Definition items (v : value) : list string :=
  match v with
  | Arr l => l
  | Str s => map (fun c => String c EmptyString) (list_ascii_of_string s)
  | Undefined => []
  end.

(** String concatenation with a value that may be [null] or
    [undefined]: the missing value prints as the given word. *)
Definition show (missing : string) (v : option string) : string :=
  match v with Some s => s | None => missing end.

(** [a[i]] on an array: [undefined] outside of it. *)
Definition index {A : Type} (a : list A) (i : Z) : option A :=
  if i <? 0 then None else a !! Z.to_nat i.

(** The characters the sources spell with an escape. *)
Definition quote : string := String "034"%char EmptyString.
Definition backslash : string := String "092"%char EmptyString.
Definition newline : string := String "010"%char EmptyString.

(** A plain object used as a dictionary with string values: its own
    enumerable properties in the order [_.forEach] visits them, which is
    the order of [Object.keys]: array indices first, in ascending order,
    then the other names from oldest to newest. *)
Definition object : Type := list (string * string).

(** The value of a decimal digit. *)
Definition digit (c : ascii) : option N :=
  let n := N_of_ascii c in
  if ((48 <=? n) && (n <=? 57))%N then Some (n - 48)%N else None.

(** The number a string of decimal digits spells, after [acc]. *)
Fixpoint digits (s : string) (acc : N) : option N :=
  match s with
  | EmptyString => Some acc
  | String c rest =>
      match digit c with
      | Some d => digits rest (10 * acc + d)%N
      | None => None
      end
  end.

(** The array index a property name spells, if it is one: a decimal
    numeral, without sign or leading zero, of an integer below
    [2^32 - 1].  Such properties are enumerated before all others, in
    ascending numeric order. *)
Definition arrayIndex (key : string) : option N :=
  match key with
  | EmptyString => None
  | String c rest =>
      if Ascii.eqb c "0" && negb (String.eqb rest EmptyString) then None
      else
        match digits key 0 with
        | Some n => if (n <? 4294967295)%N then Some n else None
        | None => None
        end
  end.

(** Writing an own property that exists: the value changes, the place in
    the enumeration does not. *)
Fixpoint overwrite (o : object) (key v : string) : object :=
  match o with
  | [] => []
  | (k, w) :: o' =>
      if String.eqb k key then (k, v) :: o'
      else (k, w) :: overwrite o' key v
  end.

(** Creating the property of array index [n]: it is enumerated after the
    smaller indices and before everything else. *)
Fixpoint insertIndex (n : N) (key v : string) (o : object) : object :=
  match o with
  | [] => [(key, v)]
  | (k, w) :: o' =>
      match arrayIndex k with
      | Some m =>
          if (m <? n)%N then (k, w) :: insertIndex n key v o'
          else (key, v) :: o
      | None => (key, v) :: o
      end
  end.

(** Creating a property: an array index goes to its place among the
    indices, any other name becomes the newest property. *)
Definition create (o : object) (key v : string) : object :=
  match arrayIndex key with
  | Some n => insertIndex n key v o
  | None => o ++ [(key, v)]
  end.

(** [o[key] = v] on a plain object, for a string [v]: an own property is
    overwritten in place; otherwise the name [__proto__] reaches the
    inherited setter, which ignores a string, and any other name creates
    a property. *)
Definition assign (o : object) (key v : string) : object :=
  if contains (map fst o) key then overwrite o key v
  else if String.eqb key "__proto__" then o
  else create o key v.

(** A property that holds a string, [null] or [undefined]. *)
Inductive nullable : Type :=
| NoValue
| Null
| Text (s : string).

(** String concatenation with such a property. *)
Definition toString (v : nullable) : string :=
  match v with
  | NoValue => "undefined"
  | Null => "null"
  | Text s => s
  end.

End Js.

(* ===================================================================== *)
(** ** The query builder *)
(* ===================================================================== *)

(** [utils/SolrQuery] is not part of the verified sources; the controller
    uses it through a single method, [setField(name, value, combinator?)].
    The builder is represented by the sequence of [setField] calls it has
    received, oldest first: this is all the controller contributes to the
    query that is eventually rendered. *)
Module SolrQuery.

Record call : Type := Call {
  name : string;
  value : Js.value;
  combinator : option string
}.

Definition t : Type := list call.

(** [new SolrQuery()] *)
Definition new : t := [].

Definition setField (qb : t) (name : string) (value : Js.value)
    (combinator : option string) : t :=
  qb ++ [Call name value combinator].

(** The fields a builder carries a constraint on. *)
Definition fields (qb : t) : list string := map name qb.

End SolrQuery.

(* ===================================================================== *)
(** ** The chant search controller *)
(* ===================================================================== *)

Module ChantSearch.

Import SolrQuery.

(** Fields which are indexed in Solr as strings. *)
Definition stringFields : list string :=
  ["feast"; "office"; "genre"; "position"; "mode"; "differentia";
   "finalis"; "folio"].

Definition getSearchField (field : string) : string :=
  if Js.contains stringFields field then field +:+ "_t_hidden" else field.

(** The [_.forEach] loop of [setSearchQueryOnBuilder]: values of length
    one are pushed on the first array, the others on the second. *)
Fixpoint partitionModes (values : list string)
    (modeStringValues modeTextValues : list string)
    : list string * list string :=
  match values with
  | [] => (modeStringValues, modeTextValues)
  | value :: rest =>
      if Js.length value =? 1
      then partitionModes rest (modeStringValues ++ [value]) modeTextValues
      else partitionModes rest modeStringValues (modeTextValues ++ [value])
  end.

Definition setSearchQueryOnBuilder (queryBuilder : SolrQuery.t)
    (field : string) (query : Js.value) : SolrQuery.t :=
  if negb (String.eqb field "mode") then
    setField queryBuilder (getSearchField field) query (Some "OR")
  else
    match query with
    | Js.Str s =>
        setField queryBuilder
          (if Js.length s =? 1 then "mode" else "mode_t_hidden")
          query None
    | _ =>
        let '(modeStringValues, modeTextValues) :=
          partitionModes (Js.items query) [] [] in
        if Z.of_nat (length modeStringValues) =? 0 then
          setField queryBuilder "mode_t_hidden" (Js.Arr modeTextValues)
            (Some "OR")
        else if Z.of_nat (length modeTextValues) =? 0 then
          setField queryBuilder "mode" (Js.Arr modeStringValues)
            (Some "OR")
        else
          let hardCodedQuery :=
            "(mode:(" +:+ Js.join " OR " modeStringValues +:+
            ") OR mode_t_hidden:(" +:+ Js.join " OR " modeTextValues +:+
            "))" in
          setField queryBuilder "_hardcodedSpecialQuery"
            (Js.Str hardCodedQuery) None
    end.

(** What the controller asks of its result collection. *)
Inductive collectionCall : Type :=
| InvalidateFetch
| Reset
| Fetch (baseSolrQuery : SolrQuery.t).

(** The controller's own state: the search input model ([query],
    [field]) and the restrictions applied to every query. *)
Record t : Type := Controller {
  query : Js.value;
  field : string;
  restrictions : Js.object
}.

(** The [_.forEach(this.restrictions, ...)] loop of [search]. *)
Definition applyRestrictions (restrictions : Js.object)
    (queryBuilder : SolrQuery.t) : SolrQuery.t :=
  fold_left
    (fun qb '(field, value) =>
       setField qb (getSearchField field) (Js.Str value) None)
    restrictions queryBuilder.

(** [search()]: the calls made on [this.collection], in order. *)
Definition search (c : t) : list collectionCall :=
  let query := query c in
  let field := field c in
  if negb (Js.truthy query) then [InvalidateFetch; Reset]
  else
    let query :=
      if negb (String.eqb field "all") then
        match query with
        | Js.Str s => Js.Arr (Js.split "," s)
        | _ => query
        end
      else query in
    let queryBuilder := SolrQuery.new in
    let queryBuilder := setSearchQueryOnBuilder queryBuilder field query in
    let queryBuilder := applyRestrictions (restrictions c) queryBuilder in
    [Fetch queryBuilder].

(** [setRestriction(field, value)]: the updated controller and the calls
    made on the collection. *)
Definition setRestriction (c : t) (field value : string)
    : t * list collectionCall :=
  let c' := Controller (query c) (ChantSearch.field c)
              (Js.assign (restrictions c) field value) in
  (c', if Js.truthy (query c') then search c' else []).

(** [onSearch(query)] sets the query on the input model; the change
    event of the model then runs [search] (the listener registered in
    [initialize]) when the value is a new one. *)
Definition onSearch (c : t) (q : Js.value) : t :=
  Controller q (field c) (restrictions c).

End ChantSearch.

(* ===================================================================== *)
(** ** The search result collection *)
(* ===================================================================== *)

Module SearchResultCollection.

Import ChantSearch.

Section Store.

(** A result record, as the backend returns it. *)
Context {result : Type}.

(** The body of a search response. *)
Record response : Type := Response {
  resp_results : list result;
  resp_numFound : Z
}.

(** Modelled from the spec: [collections/SearchResultCollection] is not
    part of the verified sources.  The store holds the ordered results and
    their metadata; [fetch] issues a lookup whose completion replaces
    both and emits a synchronized notification; [invalidateFetch] voids
    any fetch in flight; [reset] clears results and metadata to
    empty/zero; a completion is applied only when its fetch is still
    the authoritative one (an invalidation token checked at completion
    time, the request itself is never cancelled). *)
Record t : Type := Store {
  models : list result;
  numFound : Z;
  authoritative : option nat;
  issued : nat;
  requests : list (nat * SolrQuery.t);
  synchronized : nat
}.

Definition empty : t := Store [] 0 None 0%nat [] 0%nat.

(** Modelled from the spec: [invalidateFetch()] marks any in-flight or
    stale fetch as void. *)
Definition invalidateFetch (s : t) : t :=
  Store (models s) (numFound s) None (issued s) (requests s)
    (synchronized s).

(** Modelled from the spec: [reset()] clears results and metadata to
    empty/zero. *)
Definition reset (s : t) : t :=
  Store [] 0 (authoritative s) (issued s) (requests s) (synchronized s).

(** Modelled from the spec: [fetch(query)] issues a lookup; the fetch
    issued last is the authoritative one. *)
Definition fetch (s : t) (baseSolrQuery : SolrQuery.t) : t :=
  Store (models s) (numFound s) (Some (issued s)) (S (issued s))
    (requests s ++ [(issued s, baseSolrQuery)]) (synchronized s).

(** Modelled from the spec: the response to the fetch numbered [token]
    arrives; it replaces the stored results and metadata and a
    synchronized notification is emitted, unless the fetch is no longer
    the authoritative one. *)
Definition complete (s : t) (token : nat) (r : response) : t :=
  if bool_decide (authoritative s = Some token) then
    Store (resp_results r) (resp_numFound r) (authoritative s)
      (issued s) (requests s) (S (synchronized s))
  else s.

Definition call (s : t) (c : collectionCall) : t :=
  match c with
  | InvalidateFetch => invalidateFetch s
  | Reset => reset s
  | Fetch qb => fetch s qb
  end.

Definition calls (s : t) (cs : list collectionCall) : t :=
  fold_left call cs s.

(** What happens on the event loop: the controller runs [search], or a
    response arrives. *)
Inductive event : Type :=
| Search (c : ChantSearch.t)
| Arrive (token : nat) (r : response).

Definition step (s : t) (e : event) : t :=
  match e with
  | Search c => calls s (search c)
  | Arrive token r => complete s token r
  end.

Definition run (s : t) (es : list event) : t := fold_left step es s.

(** The stored results and metadata. *)
Definition contents (s : t) : list result * Z := (models s, numFound s).

End Store.

End SearchResultCollection.

(* ===================================================================== *)
(** ** The notation search view and the viewer it drives *)
(* ===================================================================== *)

Module SearchNotationView.

Section View.

(** A result record of the notation search (a box on a page). *)
Context {result : Type}.

(** [GlobalVars.siteUrl] and the URI coding built-ins. *)
Variable siteUrl : string.
Variable encodeURIComponent decodeURIComponent : string -> string.
(** Number to string conversion, as done by string concatenation. *)
Variable numberToString : Z -> string.

(** Modelled from the spec: [views/PaginationView] is not part of the
    verified sources.  It is a page cursor over [elementCount] elements,
    [pageSize] per page, built from its options; [getPage()] returns
    the 1-based current index. *)
Record PaginationView : Type := Paginator {
  name : string;
  currentPage : Z;
  elementCount : Z;
  pageSize : Z
}.

(** Modelled from the spec: [getPage()] returns the 1-based current
    index. *)
Definition getPage (p : PaginationView) : Z := currentPage p.

(** Modelled from the spec: [views/DivaView] is not part of the
    verified sources.  [paintBoxes(regions)] replaces any prior highlights by the
    given ones; [zoomToLocation(record)] moves the view to a record
    (the records it was asked for are kept, oldest first; [None] is the
    JavaScript [undefined]). *)
Record DivaView : Type := Diva {
  highlights : list result;
  zoomed : list (option result)
}.

(** Modelled from the spec: [paintBoxes(regions)] replaces any prior
    highlights. *)
Definition paintBoxes (d : DivaView) (regions : list result) : DivaView :=
  Diva regions (zoomed d).

(** Modelled from the spec: [zoomToLocation(record)]. *)
Definition zoomToLocation (d : DivaView) (record : option result)
    : DivaView :=
  Diva (highlights d) (zoomed d ++ [record]).

(** The attributes of [this.results] (the body of the last response)
    and the address it fetches from. *)
Record Results : Type := ResultsModel {
  results : list result;
  numFound : Z;
  url : option string;
  fetches : list string
}.

(** The two elements of the page the view writes to:
    [.note-search-results] holds markup, [.note-pagination] holds the
    paginator attached to it, if any. *)
Record Dom : Type := Document {
  noteSearchResults : string;
  notePagination : option PaginationView
}.

Record t : Type := View {
  query : option string;
  field : option string;
  model : Results;
  divaView : DivaView;
  paginator : option PaginationView;
  manuscript : Js.nullable;
  dom : Dom;
  (** paginators whose change event runs [zoomToResult] *)
  listening : list PaginationView
}.

Definition clearResults (v : t) (message : string) : t :=
  View (query v) (field v) (model v) (divaView v) (paginator v)
    (manuscript v) (Document message None) (listening v).

(** [setManuscript(manuscript)] keeps what it is given. *)
Definition setManuscript (v : t) (m : Js.nullable) : t :=
  View (query v) (field v) (model v) (divaView v) (paginator v) m (dom v)
    (listening v).

(** How a handler ends: it returns, or it throws; either way the view is
    left as the statements that ran have made it. *)
Inductive completion : Type :=
| Returned (v : t)
| Threw (v : t).

(** [renderResults()] writes the heading and then calls [this.assign].
    The view extends [Marionette.LayoutView] and defines no [assign]
    (the abstract view that is imported next to it is not extended), so
    the call is a [TypeError]: nothing is attached to the pagination
    element. *)
Definition renderResults (v : t) : completion :=
  let markup :=
    "<h4>" +:+ numberToString (numFound (model v)) +:+
    " results found for query " +:+ Js.quote +:+
    Js.show "null" (field v) +:+ ":" +:+
    decodeURIComponent (Js.show "null" (query v)) +:+
    Js.quote +:+ "</h4>" in
  Threw
    (View (query v) (field v) (model v) (divaView v) (paginator v)
       (manuscript v) (Document markup (notePagination (dom v)))
       (listening v)).

(** [zoomToResult()]; [None] is the [TypeError] of reading [getPage]
    off a paginator that is [null]. *)
Definition zoomToResult (v : t) : option t :=
  match paginator v with
  | None => None
  | Some p =>
      let newIndex := getPage p - 1 in
      Some (View (query v) (field v) (model v)
              (zoomToLocation (divaView v)
                 (Js.index (results (model v)) newIndex))
              (paginator v) (manuscript v) (dom v) (listening v))
  end.

(** [resultFetchCallback()], run on the [sync] event of
    [this.results]. *)
Definition resultFetchCallback (v : t) : completion :=
  let v := View (query v) (field v) (model v)
             (paintBoxes (divaView v) (results (model v)))
             (paginator v) (manuscript v) (dom v) (listening v) in
  let p := Paginator "notation-paginator" 1 (numFound (model v)) 1 in
  let v := View (query v) (field v) (model v) (divaView v) (Some p)
             (manuscript v) (dom v) (listening v) in
  match zoomToResult v with
  | None => Threw v
  | Some v =>
      let v := View (query v) (field v) (model v) (divaView v)
                 (paginator v) (manuscript v) (dom v)
                 (listening v ++ [p]) in
      renderResults v
  end.

(** [newSearch(event)], given the values of the query input and of the
    field selector. *)
Definition newSearch (v : t) (queryInput fieldInput : string) : t :=
  let query := encodeURIComponent queryInput in
  if String.eqb query EmptyString then
    let v := View (Some query) (field v) (model v)
               (paintBoxes (divaView v) []) (paginator v)
               (manuscript v) (dom v) (listening v) in
    clearResults v "<h4>Please enter a search query.</h4>"
  else
    let field := encodeURIComponent fieldInput in
    let url :=
      siteUrl +:+ "notation-search/?q=" +:+ query +:+ "&type=" +:+
      field +:+ "&manuscript=" +:+ Js.toString (manuscript v) in
    let m := model v in
    View (Some query) (Some field)
      (ResultsModel (results m) (numFound m) (Some url)
         (fetches m ++ [url]))
      (divaView v) (paginator v) (manuscript v) (dom v) (listening v).

(** The response to a fetch arrives: the attributes of [this.results]
    are replaced and its [sync] event runs [resultFetchCallback]. *)
Definition sync (v : t) (rs : list result) (n : Z) : completion :=
  let m := model v in
  resultFetchCallback
    (View (query v) (field v)
       (ResultsModel rs n (url m) (fetches m))
       (divaView v) (paginator v) (manuscript v) (dom v) (listening v)).

End View.

End SearchNotationView.

(* ===================================================================== *)
(** ** The template loader installed on [Marionette.TemplateCache] *)
(* ===================================================================== *)

Module TemplateCache.

(** An [Error] object: its [name] and its [message]. *)
Record error : Type := Error {
  name : string;
  message : string
}.

(** [templateId.replace(/^#/, '')]: one leading hash is dropped. *)
Definition stripHash (templateId : string) : string :=
  match templateId with
  | String c rest => if Ascii.eqb c "#" then rest else templateId
  | EmptyString => templateId
  end.

Definition templateFile (templateId : string) : string :=
  stripHash templateId +:+ ".html".

Section Loader.

(** A pre-compiled template. *)
Context {template : Type}.

(** The bundled [templates] module: file name to compiled template.
    [loadTemplate] either returns a template or throws ([inl]). *)
Definition loadTemplate (templates : gmap string template)
    (templateId : string) : error + template :=
  let templateFile := templateFile templateId in
  match templates !! templateFile with
  | None =>
      inl (Error "NoTemplateError"
             ("Could not find template: " +:+ Js.quote +:+ templateId +:+
              Js.quote +:+ " (" +:+ templateFile +:+ ")"))
  | Some compiled => inr compiled
  end.


End Loader.

End TemplateCache.

(* ===================================================================== *)
(** ** The template bundler *)
(* ===================================================================== *)

Module Bundler.

(** What [getTemplateSource] resolves to. *)
Record source : Type := Source {
  file : string;
  cwd : option string;
  template : string
}.

(** The [options] dictionary; [preface] is its only entry. *)
Record options : Type := Options {
  preface : option string
}.

(** A writable stream, as the chunks written to it so far. *)
Definition stream : Type := list string.

Definition write (s : stream) (chunk : string) : stream := s ++ [chunk].

(** The text a stream has received. *)
Definition text (s : stream) : string := String.concat EmptyString s.

(** [file.replace(re, replacement)], where [re] is the global pattern
    matching one double quote or one backslash and [replacement] is a
    backslash followed by the match. *)
Fixpoint escape (file : string) : string :=
  match file with
  | EmptyString => EmptyString
  | String c rest =>
      if Ascii.eqb c "034" || Ascii.eqb c "092"
      then String "092" (String c (escape rest))
      else String c (escape rest)
  end.

(** The [templates.forEach] loop, from position [index] on. *)
Fixpoint writeEntries (len index : Z) (templates : list source)
    (s : stream) : stream :=
  match templates with
  | [] => s
  | source :: rest =>
      let continuation :=
        if index =? len - 1 then Js.newline else "," +:+ Js.newline in
      writeEntries len (index + 1) rest
        (write s (Js.quote +:+ escape (file source) +:+ Js.quote +:+ ":" +:+
                  template source +:+ continuation))
  end.

(** [_.result(options, 'preface')] followed by the truthiness test. *)
Definition prefaceOf (opts : option options) : option string :=
  match opts with
  | Some o =>
      match preface o with
      | Some p => if String.eqb p EmptyString then None else Some p
      | None => None
      end
  | None => None
  end.

Definition writeBundle (templates : list source) (s : stream)
    (opts : option options) : stream :=
  let s := match prefaceOf opts with
           | Some preface => write s preface
           | None => s
           end in
  let len := Z.of_nat (length templates) in
  let s := write s ("module.exports={" +:+ Js.newline) in
  let s := writeEntries len 0 templates s in
  write s ("};" +:+ Js.newline).

(** Reading back the body of a double-quoted string literal: a backslash
    makes the next character literal, a bare quote would end the literal
    too early. *)
Fixpoint literalValue (body : string) : option string :=
  match body with
  | EmptyString => Some EmptyString
  | String c rest =>
      if Ascii.eqb c "034" then None
      else if Ascii.eqb c "092" then
        match rest with
        | String d rest' =>
            if Ascii.eqb d "034" || Ascii.eqb d "092"
            then option_map (String d) (literalValue rest')
            else None
        | EmptyString => None
        end
      else option_map (String c) (literalValue rest)
  end.

End Bundler.

(* ===================================================================== *)
(** ** The search fields the controller knows *)
(* ===================================================================== *)

Module KnownFields.

Record descriptor : Type := Field {
  type : string;
  name : string
}.

Definition KNOWN_FIELDS : list descriptor :=
  [Field "all" "All Text Fields";
   Field "manuscript" "Manuscript";
   Field "volpiano" "Volpiano";
   Field "mode" "Mode";
   Field "feast" "Feast";
   Field "genre" "Genre";
   Field "office" "Office"].

(** Search fields the controller provides. *)
Definition fields : list descriptor :=
  List.filter (fun field => negb (String.eqb (type field) "manuscript"))
    KNOWN_FIELDS.

(** The additional result fields [display] hands to the result view, from
    the [additionalResultFields] option ([None] when the option is not
    given: [_.contains] then finds nothing). *)
Definition infoFields (specifiedAddFields : option (list string))
    : list descriptor :=
  List.filter
    (fun field =>
       match specifiedAddFields with
       | Some specified => Js.contains specified (type field)
       | None => false
       end)
    KNOWN_FIELDS.

End KnownFields.

(* ===================================================================== *)
(** ** Reading the templates of a directory *)
(* ===================================================================== *)

Module TemplateFiles.

Import Bundler.

Section FileSystem.

(** [path.resolve(from, to)]. *)
Variable resolve : string -> string -> string.
(** [fs.readdir]: the entries of a directory, or a failure. *)
Variable readdir : string -> option (list string).
(** [fs.readFile] followed by [toString()]: the text of a file, or a
    failure. *)
Variable readFile : string -> option string.
(** [_.template(text).source]: the source of the compiled template
    function, or the exception raised for a malformed template. *)
Variable templateSource : string -> option string.

(** [cwd || other]: the empty string and a missing argument are falsy. *)
Definition truthyPath (cwd : option string) : option string :=
  match cwd with
  | Some dir => if String.eqb dir EmptyString then None else Some dir
  | None => None
  end.

(** [getTemplateSource(file, cwd)]; [None] is a rejected promise. *)
Definition getTemplateSource (file : string) (cwd : option string)
    : option source :=
  match readFile (resolve (Js.show "." (truthyPath cwd)) file) with
  | None => None
  | Some data =>
      match templateSource data with
      | None => None
      | Some compiled => Some (Source file (truthyPath cwd) compiled)
      end
  end.

(** [getTemplates(templateDir)]: [Q.all] over the entries, in the order
    [readdir] lists them; it is rejected as soon as one of them is. *)
Definition getTemplates (templateDir : string) : option (list source) :=
  match readdir templateDir with
  | None => None
  | Some files =>
      mapM (fun file => getTemplateSource file (Some templateDir)) files
  end.

End FileSystem.

End TemplateFiles.

(* ===================================================================== *)
(** * Properties *)
(* ===================================================================== *)

(** ** Field names and the mode workaround *)

Import SolrQuery ChantSearch.

Lemma contains_elem_of (l : list string) (x : string) :
  Js.contains l x = true <-> x ∈ l.
Proof.
  induction l as [|y l IH]; simpl.
  - split; [discriminate | intros H; inversion H].
  - destruct (String.eqb_spec y x) as [->|Hne].
    + split; [intros _; left | reflexivity].
    + rewrite IH. split; [apply list_elem_of_further |].
      intros H. inversion H; subst; [congruence | assumption].
Qed.

(** C1: [getSearchField f] is [f] followed by [_t_hidden] when [f] is
    one of feast, office, genre, position, mode, differentia, finalis and
    folio, and is [f] itself for every other field name. *)
Theorem getSearchField_string_indexed (f : string) :
  (f ∈ ["feast"; "office"; "genre"; "position"; "mode"; "differentia";
        "finalis"; "folio"] ->
   getSearchField f = f +:+ "_t_hidden") /\
  (f ∉ ["feast"; "office"; "genre"; "position"; "mode"; "differentia";
        "finalis"; "folio"] ->
   getSearchField f = f).
Proof.
  unfold getSearchField.
  destruct (Js.contains stringFields f) eqn:E.
  - split; [reflexivity |].
    intros Hn. exfalso. apply Hn. by apply contains_elem_of.
  - split; [| reflexivity].
    intros Hin. apply contains_elem_of in Hin.
    unfold stringFields in E. congruence.
Qed.

Lemma getSearchField_string_indexed_witness :
  getSearchField "feast" = "feast_t_hidden" /\
  getSearchField "volpiano" = "volpiano".
Proof.
  split.
  - apply (proj1 (getSearchField_string_indexed "feast")).
    apply contains_elem_of. reflexivity.
  - apply (proj2 (getSearchField_string_indexed "volpiano")).
    intros H. apply contains_elem_of in H. discriminate H.
Defined.

(** A mode value is matched against the exact field when it is one
    character long, against the text field when it is longer. *)
Definition singleCharacter (v : string) : Prop := String.length v = 1%nat.
Definition multiCharacter (v : string) : Prop := (2 <= String.length v)%nat.

#[local] Instance singleCharacter_dec v : Decision (singleCharacter v).
Proof. unfold singleCharacter. apply _. Defined.
#[local] Instance multiCharacter_dec v : Decision (multiCharacter v).
Proof. unfold multiCharacter. apply _. Defined.

(** The values a query carries: the string itself, or the elements of the
    array. *)
Definition queryValues (query : Js.value) : list string :=
  match query with
  | Js.Undefined => []
  | Js.Str s => [s]
  | Js.Arr l => l
  end.

(** The combinator [setSearchQueryOnBuilder] passes for a mode query. *)
Definition modeCombinator (query : Js.value) : option string :=
  match query with
  | Js.Str _ => None
  | _ => Some "OR"
  end.

Lemma length_is_1 (v : string) :
  (Js.length v =? 1) = bool_decide (singleCharacter v).
Proof.
  unfold Js.length, singleCharacter.
  destruct (Z.eqb_spec (Z.of_nat (String.length v)) 1) as [H|H];
    symmetry; [apply bool_decide_eq_true | apply bool_decide_eq_false]; lia.
Qed.

Lemma partitionModes_filter (values a b : list string) :
  partitionModes values a b =
    (a ++ filter singleCharacter values,
     b ++ filter (fun v => ~ singleCharacter v) values).
Proof.
  revert a b. induction values as [|v values IH]; intros a b; simpl.
  - by rewrite !app_nil_r.
  - rewrite length_is_1, !IH.
    destruct (decide (singleCharacter v)) as [Hv|Hv].
    + rewrite bool_decide_eq_true_2 by done.
      rewrite filter_cons_True by done.
      rewrite filter_cons_False by tauto.
      by rewrite <- app_assoc.
    + rewrite bool_decide_eq_false_2 by done.
      rewrite filter_cons_False by done.
      rewrite filter_cons_True by done.
      by rewrite <- app_assoc.
Qed.

Lemma filter_all {A} (P : A -> Prop) `{!forall x, Decision (P x)}
    (l : list A) :
  Forall P l -> filter P l = l.
Proof.
  induction 1 as [|x l Hx _ IH]; [done |].
  by rewrite filter_cons_True, IH.
Qed.

Lemma filter_none {A} (P : A -> Prop) `{!forall x, Decision (P x)}
    (l : list A) :
  Forall (fun x => ~ P x) l -> filter P l = [].
Proof.
  induction 1 as [|x l Hx _ IH]; [done |].
  by rewrite filter_cons_False.
Qed.

Lemma multi_not_single (v : string) : multiCharacter v -> ~ singleCharacter v.
Proof. unfold multiCharacter, singleCharacter. lia. Qed.

Lemma length_zero_nil {A} (l : list A) :
  (Z.of_nat (length l) =? 0) = bool_decide (l = []).
Proof.
  destruct l as [|x l]; [reflexivity |].
  rewrite bool_decide_eq_false_2 by done.
  apply Z.eqb_neq. rewrite length_cons. lia.
Qed.

(** The array branch of [setSearchQueryOnBuilder], in terms of the two
    sub-sequences of the values. *)
Lemma setSearchQueryOnBuilder_mode_array (qb : SolrQuery.t)
    (values : list string) :
  let singles := filter singleCharacter values in
  let others := filter (fun v => ~ singleCharacter v) values in
  setSearchQueryOnBuilder qb "mode" (Js.Arr values) =
    if bool_decide (singles = []) then
      setField qb "mode_t_hidden" (Js.Arr others) (Some "OR")
    else if bool_decide (others = []) then
      setField qb "mode" (Js.Arr singles) (Some "OR")
    else
      setField qb "_hardcodedSpecialQuery"
        (Js.Str ("(mode:(" +:+ Js.join " OR " singles +:+
                 ") OR mode_t_hidden:(" +:+ Js.join " OR " others +:+ "))"))
        None.
Proof.
  intros singles others. unfold setSearchQueryOnBuilder. simpl.
  rewrite partitionModes_filter. simpl.
  by rewrite !length_zero_nil.
Qed.

(** C2: a mode query that carries values, all of them one character
    long, adds one constraint, on the exact field [mode], and none on
    [mode_t_hidden]; when all of them are longer than one character it adds
    one constraint, on [mode_t_hidden], and none on [mode].  (The value is
    passed on as it came; an array query is OR-combined.) *)
Theorem mode_query_of_one_kind (qb : SolrQuery.t) (query : Js.value) :
  queryValues query <> [] ->
  (Forall singleCharacter (queryValues query) ->
   setSearchQueryOnBuilder qb "mode" query =
     qb ++ [Call "mode" query (modeCombinator query)] /\
   fields (setSearchQueryOnBuilder SolrQuery.new "mode" query) = ["mode"]) /\
  (Forall multiCharacter (queryValues query) ->
   setSearchQueryOnBuilder qb "mode" query =
     qb ++ [Call "mode_t_hidden" query (modeCombinator query)] /\
   fields (setSearchQueryOnBuilder SolrQuery.new "mode" query) =
     ["mode_t_hidden"]).
Proof.
  intros Hne. destruct query as [|s|values]; simpl in *.
  - congruence.
  - unfold setSearchQueryOnBuilder; simpl. rewrite length_is_1.
    split; intros Hall; apply Forall_inv in Hall.
    + by rewrite !bool_decide_eq_true_2.
    + by rewrite !bool_decide_eq_false_2 by by apply multi_not_single.
  - assert (Hmode : forall qb',
      Forall singleCharacter values ->
      setSearchQueryOnBuilder qb' "mode" (Js.Arr values) =
        qb' ++ [Call "mode" (Js.Arr values) (Some "OR")]).
    { intros qb' Hall. rewrite setSearchQueryOnBuilder_mode_array.
      rewrite (filter_all singleCharacter) by done.
      rewrite (filter_none (fun v => ~ singleCharacter v)).
      - by rewrite bool_decide_eq_false_2.
      - eapply Forall_impl; [exact Hall | tauto]. }
    assert (Htext : forall qb',
      Forall multiCharacter values ->
      setSearchQueryOnBuilder qb' "mode" (Js.Arr values) =
        qb' ++ [Call "mode_t_hidden" (Js.Arr values) (Some "OR")]).
    { intros qb' Hall.
      assert (Forall (fun v => ~ singleCharacter v) values) as Hnot
        by (eapply Forall_impl; [exact Hall | apply multi_not_single]).
      rewrite setSearchQueryOnBuilder_mode_array.
      rewrite (filter_none singleCharacter) by done.
      by rewrite (filter_all (fun v => ~ singleCharacter v)) by done. }
    split; intros Hall; [rewrite !Hmode | rewrite !Htext]; done.
Qed.

Lemma mode_query_of_one_kind_witness :
  setSearchQueryOnBuilder SolrQuery.new "mode" (Js.Arr ["1"; "2"]) =
    [Call "mode" (Js.Arr ["1"; "2"]) (Some "OR")] /\
  setSearchQueryOnBuilder SolrQuery.new "mode" (Js.Arr ["1S"; "2T"]) =
    [Call "mode_t_hidden" (Js.Arr ["1S"; "2T"]) (Some "OR")].
Proof.
  split.
  - apply (mode_query_of_one_kind SolrQuery.new (Js.Arr ["1"; "2"])).
    + simpl. discriminate.
    + simpl. repeat constructor.
  - apply (mode_query_of_one_kind SolrQuery.new (Js.Arr ["1S"; "2T"])).
    + simpl. discriminate.
    + simpl. repeat constructor.
Defined.

(** The array without values is sent to the text field, with nothing to
    look for. *)
Example mode_query_without_values :
  setSearchQueryOnBuilder SolrQuery.new "mode" (Js.Arr []) =
    [Call "mode_t_hidden" (Js.Arr []) (Some "OR")].
Proof. reflexivity. Qed.

(** C3: a mode query holding a one-character value and a longer value
    adds exactly one call, the raw clause
    [(mode:(v1 OR ...) OR mode_t_hidden:(w1 OR ...))] set on
    [_hardcodedSpecialQuery], whose first group joins the one-character
    values and whose second group joins the other values, each in query
    order; no constraint is set on [mode] or on [mode_t_hidden].  When no
    value is empty, the other values are the ones longer than one
    character. *)
Theorem mode_query_of_both_kinds (qb : SolrQuery.t) (values : list string) :
  (exists v, v ∈ values /\ singleCharacter v) ->
  (exists w, w ∈ values /\ multiCharacter w) ->
  let singles := filter singleCharacter values in
  let others := filter (fun v => ~ singleCharacter v) values in
  setSearchQueryOnBuilder qb "mode" (Js.Arr values) =
    qb ++ [Call "_hardcodedSpecialQuery"
             (Js.Str ("(mode:(" +:+ Js.join " OR " singles +:+
                      ") OR mode_t_hidden:(" +:+ Js.join " OR " others +:+
                      "))"))
             None] /\
  fields (setSearchQueryOnBuilder SolrQuery.new "mode" (Js.Arr values)) =
    ["_hardcodedSpecialQuery"] /\
  (Forall (fun v => v <> EmptyString) values ->
   others = filter multiCharacter values).
Proof.
  intros (v & Hv & Hsingle) (w & Hw & Hmulti) singles others.
  assert (singles <> []) as Hs.
  { intros E. assert (v ∈ singles) as Hin by by apply list_elem_of_filter.
    rewrite E in Hin. inversion Hin. }
  assert (others <> []) as Ho.
  { intros E. assert (w ∈ others) as Hin.
    { apply list_elem_of_filter. split; [by apply multi_not_single | done]. }
    rewrite E in Hin. inversion Hin. }
  rewrite !setSearchQueryOnBuilder_mode_array.
  fold singles others.
  rewrite !(bool_decide_eq_false_2 (singles = [])) by done.
  rewrite !(bool_decide_eq_false_2 (others = [])) by done.
  split; [done |]. split; [done |].
  intros Hnonempty. subst others. clear -Hnonempty.
  induction Hnonempty as [|x l Hx _ IH]; [done |].
  assert (~ singleCharacter x <-> multiCharacter x) as Hiff.
  { unfold singleCharacter, multiCharacter.
    destruct x as [|c x]; [congruence | simpl; lia]. }
  destruct (decide (multiCharacter x)) as [Hm|Hm].
  - rewrite !filter_cons_True by tauto. by rewrite IH.
  - rewrite !filter_cons_False by tauto. done.
Qed.

Lemma mode_query_of_both_kinds_witness :
  setSearchQueryOnBuilder SolrQuery.new "mode" (Js.Arr ["1"; "2T"; "3"; "4S"]) =
    [Call "_hardcodedSpecialQuery"
       (Js.Str "(mode:(1 OR 3) OR mode_t_hidden:(2T OR 4S))") None].
Proof.
  apply (mode_query_of_both_kinds SolrQuery.new ["1"; "2T"; "3"; "4S"]).
  - exists "1". split; [left | reflexivity].
  - exists "2T". split; [right; left | unfold multiCharacter; simpl; lia].
Defined.

(** ** What [search] hands to the builder and to the collection *)

(** [Js.split] is the comma split: joining the pieces with the separator
    gives the string back, and no piece holds the separator. *)
Lemma split_nonempty (sep : ascii) (s : string) : Js.split sep s <> [].
Proof.
  destruct s as [|c s]; simpl; [done |].
  destruct (Ascii.eqb c sep); [done |].
  by destruct (Js.split sep s).
Qed.

Lemma join_split (sep : ascii) (s : string) :
  Js.join (String sep EmptyString) (Js.split sep s) = s.
Proof.
  induction s as [|c s IH]; simpl; [done |].
  destruct (Ascii.eqb_spec c sep) as [->|Hne].
  - pose proof (split_nonempty sep s) as Hs.
    unfold Js.join in *. simpl.
    destruct (Js.split sep s) as [|p ps]; [done |].
    by rewrite IH.
  - pose proof (split_nonempty sep s) as Hs.
    unfold Js.join in *.
    destruct (Js.split sep s) as [|p ps]; [done |].
    simpl in *. destruct ps; simpl in *; by rewrite <- IH.
Qed.

Fixpoint occurs (sep : ascii) (s : string) : bool :=
  match s with
  | EmptyString => false
  | String c rest => Ascii.eqb c sep || occurs sep rest
  end.

Lemma split_pieces_free (sep : ascii) (s : string) :
  Forall (fun piece => occurs sep piece = false) (Js.split sep s).
Proof.
  induction s as [|c s IH]; simpl.
  - by constructor.
  - destruct (Ascii.eqb c sep) eqn:E.
    + by constructor.
    + destruct (Js.split sep s) as [|p ps]; simpl.
      * constructor; [by simpl; rewrite E | done].
      * inversion IH; subst. constructor; [by simpl; rewrite E | done].
Qed.

(** The call a restriction contributes. *)
Definition restrictionCall (restriction : string * string) : SolrQuery.call :=
  Call (getSearchField restriction.1) (Js.Str restriction.2) None.

Lemma applyRestrictions_calls (rs : Js.object) (qb : SolrQuery.t) :
  applyRestrictions rs qb = qb ++ map restrictionCall rs.
Proof.
  unfold applyRestrictions. revert qb.
  induction rs as [|[f v] rs IH]; intros qb; simpl.
  - by rewrite app_nil_r.
  - rewrite IH. unfold setField. by rewrite <- app_assoc.
Qed.

Lemma truthy_Str (s : string) :
  Js.truthy (Js.Str s) = true <-> s <> EmptyString.
Proof.
  simpl. destruct (String.eqb_spec s EmptyString); simpl; split; congruence.
Qed.

(** A search with a query issues exactly one fetch. *)
Lemma search_fetches (c : ChantSearch.t) :
  Js.truthy (query c) = true -> exists qb, search c = [Fetch qb].
Proof. intros H. unfold search. rewrite H. simpl. eauto. Qed.

(** A feast query holding a comma is split as well: the builder receives
    the array of the two names, not the string that was typed. *)
Lemma search_splits_feast_query :
  search (Controller (Js.Str "Pascha,Nativitas") "feast" []) =
    [Fetch [Call "feast_t_hidden" (Js.Arr ["Pascha"; "Nativitas"])
              (Some "OR")]] /\
  search (Controller (Js.Str "Pascha,Nativitas") "feast" []) <>
    [Fetch [Call "feast_t_hidden" (Js.Str "Pascha,Nativitas") (Some "OR")]].
Proof. split; [reflexivity | discriminate]. Qed.

(** C7 (as the code has it): in [search], a non-empty string query is
    split on commas into a value sequence whenever the field is anything
    but [all] -- the mode field and every other field alike; only a query
    against [all] is handed to the builder as the string it is. *)
Theorem search_splits_unless_all (s field : string) (rs : Js.object) :
  s <> EmptyString ->
  (field = "all" ->
   search (Controller (Js.Str s) field rs) =
     [Fetch (applyRestrictions rs [Call "all" (Js.Str s) (Some "OR")])]) /\
  (field <> "all" ->
   search (Controller (Js.Str s) field rs) =
     [Fetch (applyRestrictions rs
               (setSearchQueryOnBuilder SolrQuery.new field
                  (Js.Arr (Js.split "," s))))]) /\
  (field <> "all" -> field <> "mode" ->
   search (Controller (Js.Str s) field rs) =
     [Fetch (applyRestrictions rs
               [Call (getSearchField field) (Js.Arr (Js.split "," s))
                  (Some "OR")])]).
Proof.
  intros Hs. apply truthy_Str in Hs.
  unfold search. cbn [query ChantSearch.field restrictions].
  rewrite Hs. cbn [negb].
  split; [| split].
  - intros ->. reflexivity.
  - intros Hall. apply String.eqb_neq in Hall. by rewrite Hall.
  - intros Hall Hmode.
    apply String.eqb_neq in Hall. apply String.eqb_neq in Hmode.
    rewrite Hall. cbn [negb]. unfold setSearchQueryOnBuilder.
    by rewrite Hmode.
Qed.

Lemma search_splits_unless_all_witness :
  search (Controller (Js.Str "a,b") "all" []) =
    [Fetch [Call "all" (Js.Str "a,b") (Some "OR")]] /\
  search (Controller (Js.Str "a,b") "genre" []) =
    [Fetch [Call "genre_t_hidden" (Js.Arr ["a"; "b"]) (Some "OR")]].
Proof.
  split.
  - apply (search_splits_unless_all "a,b" "all" []);
      [discriminate | reflexivity].
  - apply (search_splits_unless_all "a,b" "genre" []); discriminate.
Defined.

Lemma string_length_app (s1 s2 : string) :
  String.length (s1 +:+ s2) = (String.length s1 + String.length s2)%nat.
Proof. induction s1 as [|c s1 IH]; simpl; [done | by rewrite IH]. Qed.

Lemma hidden_variant_differs (f : string) : f +:+ "_t_hidden" <> f.
Proof.
  intros E. apply (f_equal String.length) in E.
  rewrite string_length_app in E. simpl in E. lia.
Qed.

(** C10: every restriction [(field, value)] reaches the builder as a
    constraint on [getSearchField field]: the builder sent with the fetch
    ends with one such call per restriction, in the order of the
    restrictions, after what the query itself contributed; the call of a
    restriction on a string-indexed field such as [feast] names its
    [_t_hidden] variant, which is not the exact field. *)
Theorem search_restrictions_use_search_field (c : ChantSearch.t) :
  Js.truthy (query c) = true ->
  (exists searched : Js.value,
     search c =
       [Fetch (setSearchQueryOnBuilder SolrQuery.new (field c) searched ++
               map (fun r => Call (getSearchField r.1) (Js.Str r.2) None)
                 (restrictions c))]) /\
  (forall f value : string,
     (f, value) ∈ restrictions c -> f ∈ stringFields ->
     Call (getSearchField f) (Js.Str value) None =
       Call (f +:+ "_t_hidden") (Js.Str value) None /\
     f +:+ "_t_hidden" <> f).
Proof.
  intros H. split.
  - unfold search. rewrite H. cbn [negb].
    eexists. rewrite applyRestrictions_calls. reflexivity.
  - intros f value _ Hf. split; [| apply hidden_variant_differs].
    apply contains_elem_of in Hf. unfold getSearchField. by rewrite Hf.
Qed.

Lemma search_restrictions_use_search_field_witness :
  exists searched : Js.value,
    search (Controller (Js.Str "amen") "all"
              [("feast", "Pascha"); ("manuscript", "CDN-Hsmu M2149.L4")]) =
      [Fetch (setSearchQueryOnBuilder SolrQuery.new "all" searched ++
              [Call "feast_t_hidden" (Js.Str "Pascha") None;
               Call "manuscript" (Js.Str "CDN-Hsmu M2149.L4") None])].
Proof.
  apply (search_restrictions_use_search_field
           (Controller (Js.Str "amen") "all"
              [("feast", "Pascha"); ("manuscript", "CDN-Hsmu M2149.L4")])).
  reflexivity.
Defined.

(** ** The result collection under [search] and late responses *)

Import SearchResultCollection.

Section StoreProperties.

Context {result : Type}.
Implicit Types (s : @SearchResultCollection.t result).
Implicit Types (r : @response result).

Lemma complete_stale s token r :
  authoritative s <> Some token -> complete s token r = s.
Proof. intros H. unfold complete. by rewrite bool_decide_eq_false_2. Qed.

Lemma complete_authoritative s token r :
  authoritative s = Some token ->
  contents (complete s token r) = (resp_results r, resp_numFound r) /\
  authoritative (complete s token r) = Some token.
Proof. intros H. unfold complete. by rewrite bool_decide_eq_true_2. Qed.

(** Tokens are handed out in increasing order. *)
Lemma issued_call s (c : collectionCall) : (issued s <= issued (call s c))%nat.
Proof. destruct c; simpl; lia. Qed.

Lemma issued_calls s (cs : list collectionCall) :
  (issued s <= issued (calls s cs))%nat.
Proof.
  unfold calls. revert s. induction cs as [|c cs IH]; intros s; simpl.
  - lia.
  - etransitivity; [apply (issued_call s c) | apply IH].
Qed.

Lemma issued_step s (e : @event result) :
  (issued s <= issued (step s e))%nat.
Proof.
  destruct e as [c|token r]; simpl.
  - apply issued_calls.
  - unfold complete. by destruct (bool_decide _).
Qed.

Lemma issued_run s (es : list (@event result)) :
  (issued s <= issued (run s es))%nat.
Proof.
  unfold run. revert s. induction es as [|e es IH]; intros s; simpl.
  - lia.
  - etransitivity; [apply (issued_step s e) | apply IH].
Qed.

(** The response, if any, that a sequence of arrivals holds last for a
    given fetch. *)
Fixpoint lastAnswer (token : nat) (late : list (nat * @response result))
    : option (@response result) :=
  match late with
  | [] => None
  | (t, r) :: late' =>
      match lastAnswer token late' with
      | Some r' => Some r'
      | None => if bool_decide (t = token) then Some r else None
      end
  end.

Definition arrivals (late : list (nat * @response result))
    : list (@event result) :=
  map (fun a => Arrive a.1 a.2) late.

(** While one fetch stays authoritative, arrivals for other fetches
    change nothing and the contents are those of its own last answer. *)
Lemma run_arrivals s token (late : list (nat * @response result)) :
  authoritative s = Some token ->
  contents (run s (arrivals late)) =
    match lastAnswer token late with
    | Some r => (resp_results r, resp_numFound r)
    | None => contents s
    end.
Proof.
  revert s. induction late as [|[t r] late IH]; intros s Hs; [done |].
  unfold run, arrivals in *. cbn [map fold_left step fst snd lastAnswer].
  destruct (decide (t = token)) as [->|Hne].
  - destruct (complete_authoritative s token r Hs) as [Hc Ha].
    rewrite (IH _ Ha), Hc, bool_decide_eq_true_2 by done.
    by destruct (lastAnswer token late).
  - rewrite complete_stale by congruence.
    rewrite (IH _ Hs), bool_decide_eq_false_2 by done.
    by destruct (lastAnswer token late).
Qed.

(** C4: when the query is falsy, [search] calls [invalidateFetch] and
    [reset] on the collection and nothing else: no fetch is issued (the
    requests sent so far are the same), the collection ends up empty with
    [numFound] 0, and the response to any fetch still in flight is
    ignored when it arrives. *)
Theorem search_without_query (c : ChantSearch.t) s :
  Js.truthy (query c) = false ->
  search c = [InvalidateFetch; Reset] /\
  models (calls s (search c)) = [] /\
  numFound (calls s (search c)) = 0 /\
  requests (calls s (search c)) = requests s /\
  issued (calls s (search c)) = issued s /\
  (forall token r,
     complete (calls s (search c)) token r = calls s (search c)).
Proof.
  intros H. unfold search. rewrite H. cbn.
  repeat split; try reflexivity.
Qed.

(** C5: let a search issue a fetch, let anything happen, and let a
    second search issue another fetch.  From then on the first fetch is
    superseded: its response, whenever it arrives, leaves the collection
    as it is, and after any sequence of arrivals the stored results and
    metadata are those of the last-issued fetch's answer (or still the
    ones held when it was issued, while that answer is outstanding). *)
Theorem superseded_fetch_is_ignored (c1 c2 : ChantSearch.t) s
    (between : list (@event result)) (late : list (nat * @response result)) :
  Js.truthy (query c1) = true ->
  Js.truthy (query c2) = true ->
  let first := issued s in
  let s1 := step s (Search c1) in
  let second := issued (run s1 between) in
  let s2 := step (run s1 between) (Search c2) in
  first <> second /\
  (forall r1, complete s2 first r1 = s2) /\
  contents (run s2 (arrivals late)) =
    match lastAnswer second late with
    | Some r2 => (resp_results r2, resp_numFound r2)
    | None => contents s2
    end.
Proof.
  intros H1 H2 first s1 second s2.
  destruct (search_fetches c1 H1) as [qb1 E1].
  destruct (search_fetches c2 H2) as [qb2 E2].
  assert (first < second)%nat as Hlt.
  { subst second s1 first. simpl. rewrite E1.
    eapply Nat.lt_le_trans; [| apply issued_run]. simpl. lia. }
  assert (authoritative s2 = Some second) as Ha.
  { subst s2. simpl. by rewrite E2. }
  split; [lia |]. split.
  - intros r1. apply complete_stale. rewrite Ha. intros [= E]. lia.
  - by apply run_arrivals.
Qed.

End StoreProperties.

Lemma search_without_query_witness :
  search (Controller (Js.Str EmptyString) "mode" []) =
    [InvalidateFetch; Reset] /\
  contents
    (calls (fetch (Store ["f. 12r"] 1 None 0%nat [] 0%nat) SolrQuery.new)
       (search (Controller (Js.Str EmptyString) "mode" []))) = ([], 0) /\
  complete
    (calls (fetch (Store ["f. 12r"] 1 None 0%nat [] 0%nat) SolrQuery.new)
       (search (Controller (Js.Str EmptyString) "mode" [])))
    0%nat (Response ["f. 3v"] 1) =
  calls (fetch (Store ["f. 12r"] 1 None 0%nat [] 0%nat) SolrQuery.new)
    (search (Controller (Js.Str EmptyString) "mode" [])).
Proof.
  destruct (search_without_query
              (Controller (Js.Str EmptyString) "mode" [])
              (fetch (Store ["f. 12r"] 1 None 0%nat [] 0%nat) SolrQuery.new)
              eq_refl)
    as (Hcalls & Hmodels & Hfound & _ & _ & Hlate).
  split; [exact Hcalls |]. split; [| apply Hlate].
  unfold contents. by rewrite Hmodels, Hfound.
Defined.

Lemma superseded_fetch_is_ignored_witness :
  contents
    (run (step (step (@empty string)
                  (Search (Controller (Js.Str "a") "all" [])))
            (Search (Controller (Js.Str "ab") "all" [])))
       (arrivals [(1%nat, Response ["for ab"] 1);
                  (0%nat, Response ["for a"; "for a too"] 2)])) =
    (["for ab"], 1).
Proof.
  apply (superseded_fetch_is_ignored
           (Controller (Js.Str "a") "all" [])
           (Controller (Js.Str "ab") "all" [])
           (@empty string) []
           [(1%nat, Response ["for ab"] 1);
            (0%nat, Response ["for a"; "for a too"] 2)]);
    reflexivity.
Defined.

(** ** The notation search view on a result synchronisation *)

Import SearchNotationView.

Section ViewProperties.

Context {result : Type}.
Variable decodeURIComponent : string -> string.
Variable numberToString : Z -> string.
Implicit Types v : @SearchNotationView.t result.

(** What a synchronisation has done by the time it reaches
    [renderResults]. *)
Lemma sync_result v (rs : list result) (n : Z) :
  sync decodeURIComponent numberToString v rs n =
    renderResults decodeURIComponent numberToString
      (View (SearchNotationView.query v) (SearchNotationView.field v)
         (ResultsModel rs n (url (model v)) (fetches (model v)))
         (Diva rs (zoomed (divaView v) ++ [head rs]))
         (Some (Paginator "notation-paginator" 1 n 1))
         (manuscript v) (dom v)
         (listening v ++ [Paginator "notation-paginator" 1 n 1])).
Proof. by destruct rs. Qed.


End ViewProperties.

(** ** Loading a bundled template *)

Import TemplateCache.

(** The file a template identifier stands for: the identifier without its
    leading hash, with the [.html] extension. *)
Lemma templateFile_selector (id : string) :
  templateFile (String "#" id) = id +:+ ".html".
Proof. reflexivity. Qed.



(** ** The bundle written for a sequence of templates *)

Import Bundler.

Lemma string_app_cons (c : ascii) (s t : string) :
  String c s +:+ t = String c (s +:+ t).
Proof. reflexivity. Qed.

Lemma string_app_nil_l (t : string) : EmptyString +:+ t = t.
Proof. reflexivity. Qed.

Lemma string_app_nil_r (s : string) : s +:+ EmptyString = s.
Proof.
  induction s as [|c s IH]; [done |].
  by rewrite string_app_cons, IH.
Qed.

Lemma string_app_assoc (s1 s2 s3 : string) :
  (s1 +:+ s2) +:+ s3 = s1 +:+ s2 +:+ s3.
Proof.
  induction s1 as [|c s1 IH]; [done |].
  by rewrite !string_app_cons, IH.
Qed.

Lemma concat_empty_cons (x : string) (xs : list string) :
  String.concat EmptyString (x :: xs) = x +:+ String.concat EmptyString xs.
Proof.
  destruct xs as [|y xs]; cbn [String.concat]; [| done].
  symmetry. apply string_app_nil_r.
Qed.

Lemma text_write (s : stream) (chunk : string) :
  text (write s chunk) = text s +:+ chunk.
Proof.
  unfold text, write. induction s as [|x s IH].
  - reflexivity.
  - change ((x :: s) ++ [chunk]) with (x :: (s ++ [chunk])).
    by rewrite !concat_empty_cons, IH, string_app_assoc.
Qed.

(** One entry of the exported object: the quoted, escaped file name, a
    colon and the source of the template function. *)
Definition entry (src : source) : string :=
  Js.quote +:+ escape (file src) +:+ Js.quote +:+ ":" +:+ template src.

(** The entries, separated by a comma and a line break and followed by a
    line break when there are any. *)
Definition entries (templates : list source) : string :=
  match templates with
  | [] => EmptyString
  | _ => Js.join ("," +:+ Js.newline) (map entry templates) +:+ Js.newline
  end.

(** The preface the options provide, if they do. *)
Definition prefaceText (opts : option options) : string :=
  match opts with
  | Some (Options (Some p)) => p
  | _ => EmptyString
  end.

Lemma writeEntries_text (len : Z) (templates : list source) :
  forall (index : Z) (s : stream),
    index + Z.of_nat (length templates) = len ->
    text (writeEntries len index templates s) = text s +:+ entries templates.
Proof.
  induction templates as [|src rest IH]; intros index s Hlen.
  - simpl. by rewrite string_app_nil_r.
  - cbn [writeEntries]. rewrite length_cons in Hlen.
    rewrite IH by lia. rewrite text_write.
    destruct rest as [|next rest].
    + assert ((index =? len - 1) = true) as ->
        by (apply Z.eqb_eq; simpl in *; lia).
      unfold entries, entry, Js.join. simpl String.concat. simpl map.
      cbn [String.concat].
      rewrite string_app_nil_r. by rewrite !string_app_assoc.
    + assert ((index =? len - 1) = false) as ->
        by (apply Z.eqb_neq; rewrite length_cons in Hlen; lia).
      unfold entries, entry, Js.join. cbn [map String.concat].
      by rewrite !string_app_assoc.
Qed.

Lemma literalValue_escape (f : string) : literalValue (escape f) = Some f.
Proof.
  induction f as [|c f IH]; [done |].
  cbn [escape].
  destruct (Ascii.eqb c "034") eqn:Hq; cbn [orb].
  - cbn [literalValue]. rewrite Hq. cbn. by rewrite IH.
  - destruct (Ascii.eqb c "092") eqn:Hb.
    + cbn [literalValue]. rewrite Hq, Hb. cbn. by rewrite IH.
    + cbn [literalValue]. rewrite Hq, Hb, IH. done.
Qed.

(** C9: whatever the templates and the options, the text [writeBundle]
    adds to the stream is one CommonJS module: the preface when the options
    provide one, then [module.exports={], then one entry
    [<quote><file name><quote>:<template source>] per template, in input
    order and separated by commas, then [};] (each part ends its line).
    In an entry every double quote and every backslash of the file name is
    preceded by a backslash: read back as the body of a string literal, the
    escaped name is the file name. *)
Theorem writeBundle_module (templates : list source) (s : stream)
    (opts : option options) :
  text (writeBundle templates s opts) =
    text s +:+ prefaceText opts +:+
    "module.exports={" +:+ Js.newline +:+
    entries templates +:+
    "};" +:+ Js.newline /\
  (forall src, src ∈ templates ->
     literalValue (escape (file src)) = Some (file src)) /\
  (forall f g c,
     escape (f +:+ String c g) =
       escape f +:+
       (if bool_decide (c = "034"%char \/ c = "092"%char)
        then Js.backslash +:+ String c EmptyString
        else String c EmptyString) +:+
       escape g).
Proof.
  split; [| split].
  - unfold writeBundle. rewrite text_write, writeEntries_text by (simpl; lia).
    rewrite text_write.
    assert (text (match prefaceOf opts with
                  | Some preface => write s preface
                  | None => s
                  end) = text s +:+ prefaceText opts) as ->.
    { destruct opts as [[[p|]]|]; simpl; rewrite ?string_app_nil_r; try done.
      destruct (String.eqb_spec p EmptyString) as [->|_].
      - by rewrite string_app_nil_r.
      - by rewrite text_write. }
    by rewrite !string_app_assoc.
  - intros src _. apply literalValue_escape.
  - intros f g c. induction f as [|d f IH].
    + rewrite string_app_nil_l. cbn [escape].
      destruct (Ascii.eqb_spec c "034") as [->|Hq]; [done |].
      destruct (Ascii.eqb_spec c "092") as [->|Hb]; [done |].
      rewrite bool_decide_eq_false_2 by tauto. done.
    + rewrite string_app_cons. cbn [escape]. rewrite IH.
      by destruct (Ascii.eqb d "034" || Ascii.eqb d "092").
Qed.

(** A file name with a quote and a backslash in it, and a preface. *)
Example writeBundle_two_templates :
  text (writeBundle
          [Source "nav-tab.html" None "function(obj){return 1}";
           Source (String "a" (String "034" (String "092" "b"))) None
             "function(obj){return 2}"]
          [] (Some (Options (Some "/* bundled */")))) =
    "/* bundled */module.exports={" +:+ Js.newline +:+
    Js.quote +:+ "nav-tab.html" +:+ Js.quote +:+
      ":function(obj){return 1}," +:+ Js.newline +:+
    Js.quote +:+ "a" +:+ Js.backslash +:+ Js.quote +:+ Js.backslash +:+
      Js.backslash +:+ "b" +:+ Js.quote +:+
      ":function(obj){return 2}" +:+ Js.newline +:+
    "};" +:+ Js.newline.
Proof. reflexivity. Qed.

(* ===================================================================== *)
(** * Further properties of the search controller *)
(* ===================================================================== *)

(** [getSearchField] never stacks suffixes: the searchable variant of a
    searchable variant is that variant. *)
Theorem getSearchField_idempotent (f : string) :
  getSearchField (getSearchField f) = getSearchField f.
Proof.
  unfold getSearchField at 2 3.
  destruct (Js.contains stringFields f) eqn:E.
  - apply contains_elem_of in E. unfold stringFields in E.
    repeat (apply elem_of_cons in E as [->|E]; [reflexivity |]).
    inversion E.
  - unfold getSearchField. by rewrite E.
Qed.

(** Whatever the field and the query, [setSearchQueryOnBuilder] leaves
    the calls a builder already holds in place and adds one. *)
Lemma setSearchQueryOnBuilder_one_call (qb : SolrQuery.t) (field : string)
    (query : Js.value) :
  exists added,
    setSearchQueryOnBuilder SolrQuery.new field query = [added] /\
    setSearchQueryOnBuilder qb field query = qb ++ [added].
Proof.
  unfold setSearchQueryOnBuilder, setField.
  destruct (negb (String.eqb field "mode")); [by eexists |].
  destruct query as [|s|values]; [| by eexists |].
  - cbn. by eexists.
  - destruct (partitionModes (Js.items (Js.Arr values)) [] []) as [a b].
    destruct (Z.of_nat (length a) =? 0); [by eexists |].
    destruct (Z.of_nat (length b) =? 0); by eexists.
Qed.

(** For every builder, field and query, [setSearchQueryOnBuilder] appends
    exactly one [setField] call, the same one it would put on a new
    builder, and never alters the calls made before. *)
Theorem setSearchQueryOnBuilder_appends_one_call (qb : SolrQuery.t)
    (field : string) (query : Js.value) :
  length (setSearchQueryOnBuilder qb field query) = S (length qb) /\
  take (length qb) (setSearchQueryOnBuilder qb field query) = qb /\
  setSearchQueryOnBuilder qb field query =
    qb ++ setSearchQueryOnBuilder SolrQuery.new field query.
Proof.
  destruct (setSearchQueryOnBuilder_one_call qb field query)
    as (added & Hnew & Hqb).
  rewrite Hqb, Hnew. split; [| split].
  - rewrite length_app. simpl. lia.
  - by rewrite take_app_length.
  - done.
Qed.

(** The restrictions never change what the query itself contributes: the
    builder a search sends is the one-call builder of the same search
    without restrictions, followed by one call per restriction.  Such a
    search neither invalidates nor resets the collection. *)
Theorem search_restrictions_follow_query (c : ChantSearch.t) :
  Js.truthy (ChantSearch.query c) = true ->
  exists own,
    search (Controller (ChantSearch.query c) (ChantSearch.field c) []) =
      [Fetch [own]] /\
    search c =
      [Fetch (own :: map restrictionCall (ChantSearch.restrictions c))] /\
    (InvalidateFetch ∉ search c) /\ (Reset ∉ search c).
Proof.
  intros H. unfold search.
  cbn [ChantSearch.query ChantSearch.field ChantSearch.restrictions].
  rewrite H. cbn [negb]. rewrite !applyRestrictions_calls.
  match goal with
  | |- context [setSearchQueryOnBuilder SolrQuery.new ?f ?q] =>
      destruct (setSearchQueryOnBuilder_one_call SolrQuery.new f q)
        as (own & -> & _)
  end.
  exists own. cbn. repeat split.
  - intros Hin. apply list_elem_of_singleton in Hin. discriminate Hin.
  - intros Hin. apply list_elem_of_singleton in Hin. discriminate Hin.
Qed.

Lemma search_restrictions_follow_query_witness :
  exists own,
    search (Controller (Js.Str "amen") "genre" []) = [Fetch [own]] /\
    search (Controller (Js.Str "amen") "genre" [("manuscript", "F-Pn")]) =
      [Fetch [own; Call "manuscript" (Js.Str "F-Pn") None]].
Proof.
  destruct (search_restrictions_follow_query
              (Controller (Js.Str "amen") "genre" [("manuscript", "F-Pn")])
              eq_refl)
    as (own & Hown & Hsearch & _).
  exists own. split; [exact Hown | exact Hsearch].
Defined.

(** A mode search typed as a string always reaches the builder as an
    array: [search] splits it first, so the branch of
    [setSearchQueryOnBuilder] for a string query is not taken, and the
    value list it sets is never empty.  The query's call is a non-empty
    OR-group of one-character values on [mode], a non-empty OR-group of
    other values on [mode_t_hidden], or the raw combined clause. *)
Theorem mode_search_from_string (s : string) (rs : Js.object) :
  s <> EmptyString ->
  exists own,
    search (Controller (Js.Str s) "mode" rs) =
      [Fetch (own :: map restrictionCall rs)] /\
    ((exists vs, own = Call "mode" (Js.Arr vs) (Some "OR") /\
                 vs <> [] /\ Forall singleCharacter vs) \/
     (exists vs, own = Call "mode_t_hidden" (Js.Arr vs) (Some "OR") /\
                 vs <> [] /\ Forall (fun v => ~ singleCharacter v) vs) \/
     (exists clause, own = Call "_hardcodedSpecialQuery" (Js.Str clause) None)).
Proof.
  intros Hs. apply truthy_Str in Hs.
  unfold search.
  cbn [ChantSearch.query ChantSearch.field ChantSearch.restrictions].
  rewrite Hs. cbn [negb String.eqb Ascii.eqb Bool.eqb].
  rewrite applyRestrictions_calls, setSearchQueryOnBuilder_mode_array.
  pose proof (split_nonempty "," s) as Hne.
  set (values := Js.split "," s) in *.
  set (singles := filter singleCharacter values).
  set (others := filter (fun v => ~ singleCharacter v) values).
  assert (Forall singleCharacter singles) as Hsingles.
  { apply Forall_forall. intros x Hx. by apply list_elem_of_filter in Hx as [? _]. }
  assert (Forall (fun v => ~ singleCharacter v) others) as Hothers.
  { apply Forall_forall. intros x Hx. by apply list_elem_of_filter in Hx as [? _]. }
  destruct (decide (singles = [])) as [Es|Es].
  - rewrite bool_decide_eq_true_2 by done.
    eexists. split; [reflexivity |]. right; left. exists others.
    split; [done |]. split; [| done].
    destruct values as [|x values']; [done |]. intros Eo.
    destruct (decide (singleCharacter x)) as [Hx|Hx].
    + assert (x ∈ singles) as Hin
        by (apply list_elem_of_filter; split; [done | left]).
      rewrite Es in Hin. inversion Hin.
    + assert (x ∈ others) as Hin
        by (apply list_elem_of_filter; split; [done | left]).
      rewrite Eo in Hin. inversion Hin.
  - rewrite bool_decide_eq_false_2 by done.
    destruct (decide (others = [])) as [Eo|Eo].
    + rewrite bool_decide_eq_true_2 by done.
      eexists. split; [reflexivity |]. left. by exists singles.
    + rewrite bool_decide_eq_false_2 by done.
      eexists. split; [reflexivity |]. right; right. by eexists.
Qed.

Lemma mode_search_from_string_witness :
  exists own,
    search (Controller (Js.Str "1,2T") "mode" [("manuscript", "F-Pn")]) =
      [Fetch [own; Call "manuscript" (Js.Str "F-Pn") None]].
Proof.
  destruct (mode_search_from_string "1,2T" [("manuscript", "F-Pn")])
    as (own & Hsearch & _); [discriminate |].
  exists own. exact Hsearch.
Defined.

(** *** Restrictions *)

Lemma overwrite_keys (o : Js.object) (key v : string) :
  (Js.overwrite o key v).*1 = o.*1.
Proof.
  induction o as [|[k w] o IH]; [done |]. cbn [Js.overwrite].
  destruct (String.eqb k key); rewrite !fmap_cons; [done |].
  by rewrite IH.
Qed.

Lemma overwrite_elem_of (o : Js.object) (key v : string) :
  key ∈ o.*1 -> (key, v) ∈ Js.overwrite o key v.
Proof.
  induction o as [|[k w] o IH]; [inversion 1 |].
  rewrite fmap_cons. cbn [Js.overwrite fst].
  destruct (String.eqb_spec k key) as [->|Hne]; [intros _; left |].
  intros Hin. apply elem_of_cons in Hin as [E|Hin]; [congruence |].
  right. by apply IH.
Qed.

Lemma overwrite_other (o : Js.object) (key v k w : string) :
  k <> key -> (k, w) ∈ Js.overwrite o key v <-> (k, w) ∈ o.
Proof.
  intros Hk. induction o as [|[k' w'] o IH]; [done |]. cbn [Js.overwrite].
  destruct (String.eqb_spec k' key) as [->|Hne].
  - rewrite !elem_of_cons. split; (intros [E|E]; [congruence | by right]).
  - by rewrite !elem_of_cons, IH.
Qed.

Lemma insertIndex_Permutation (n : N) (key v : string) (o : Js.object) :
  Js.insertIndex n key v o ≡ₚ (key, v) :: o.
Proof.
  induction o as [|[k w] o IH]; [done |]. cbn [Js.insertIndex].
  destruct (Js.arrayIndex k) as [m|]; [| done].
  destruct (m <? n)%N; [| done].
  rewrite IH. apply perm_swap.
Qed.

Lemma create_Permutation (o : Js.object) (key v : string) :
  Js.create o key v ≡ₚ (key, v) :: o.
Proof.
  unfold Js.create. destruct (Js.arrayIndex key) as [n|].
  - apply insertIndex_Permutation.
  - symmetry. apply Permutation_cons_append.
Qed.

(** The three cases of an assignment. *)
Lemma assign_cases (o : Js.object) (key v : string) :
  (key ∈ o.*1 /\ Js.assign o key v = Js.overwrite o key v) \/
  ((key ∉ o.*1) /\ key = "__proto__" /\ Js.assign o key v = o) \/
  ((key ∉ o.*1) /\ key <> "__proto__" /\
   Js.assign o key v = Js.create o key v).
Proof.
  unfold Js.assign.
  destruct (Js.contains (map fst o) key) eqn:E.
  - left. split; [| done]. by apply contains_elem_of in E.
  - assert (key ∉ o.*1) as Hnot.
    { intros Hin. apply contains_elem_of in Hin.
      change (o.*1) with (map fst o) in Hin. congruence. }
    destruct (String.eqb_spec key "__proto__") as [->|Hne]; right.
    + by left.
    + by right.
Qed.

Lemma assign_elem_of (o : Js.object) (key v : string) :
  key <> "__proto__" -> (key, v) ∈ Js.assign o key v.
Proof.
  intros Hkey.
  destruct (assign_cases o key v) as [[Hin ->]|[(_ & ? & _)|(_ & _ & ->)]].
  - by apply overwrite_elem_of.
  - done.
  - rewrite create_Permutation. left.
Qed.

Lemma assign_other (o : Js.object) (key v k w : string) :
  k <> key -> (k, w) ∈ Js.assign o key v <-> (k, w) ∈ o.
Proof.
  intros Hk.
  destruct (assign_cases o key v) as [[_ ->]|[(_ & _ & ->)|(_ & _ & ->)]].
  - by apply overwrite_other.
  - done.
  - rewrite create_Permutation, elem_of_cons.
    split; [intros [E|E]; [congruence | done] | by right].
Qed.

Lemma assign_keys (o : Js.object) (key v : string) :
  (Js.assign o key v).*1 ≡ₚ
    if bool_decide (key ∈ o.*1 \/ key = "__proto__") then o.*1
    else key :: o.*1.
Proof.
  destruct (assign_cases o key v)
    as [[Hin ->]|[(Hnot & Hp & ->)|(Hnot & Hp & ->)]].
  - rewrite bool_decide_eq_true_2 by by left. by rewrite overwrite_keys.
  - by rewrite bool_decide_eq_true_2 by by right.
  - rewrite bool_decide_eq_false_2 by tauto.
    by rewrite create_Permutation.
Qed.

Lemma assign_NoDup (o : Js.object) (key v : string) :
  NoDup o.*1 -> NoDup (Js.assign o key v).*1.
Proof.
  intros Hnd. rewrite assign_keys. case_bool_decide as Hin; [done |].
  apply NoDup_cons. split; [tauto | done].
Qed.

Lemma NoDup_keys_value (o : Js.object) (k v w : string) :
  NoDup o.*1 -> (k, v) ∈ o -> (k, w) ∈ o -> v = w.
Proof.
  induction o as [|[k' w'] o IH]; simpl; intros Hnd Hv Hw; [inversion Hv |].
  apply NoDup_cons in Hnd as [Hnot Hnd].
  apply elem_of_cons in Hv as [Ev|Hv]; apply elem_of_cons in Hw as [Ew|Hw].
  - congruence.
  - injection Ev as -> ->. exfalso. apply Hnot.
    apply list_elem_of_fmap. by exists (k', w).
  - injection Ew as -> ->. exfalso. apply Hnot.
    apply list_elem_of_fmap. by exists (k', v).
  - by apply IH.
Qed.

(** [setRestriction(field, value)] records the pair -- unless the field
    is the name [__proto__], which a plain object does not take as a
    property -- and leaves the restrictions on other fields, the query and
    the search field as they were; field names stay unique, so the value
    just set is the only one kept for that field, and the number of
    restrictions grows only for a field that had none. *)
Theorem setRestriction_stores (c : ChantSearch.t) (f v : string) :
  let c' := (setRestriction c f v).1 in
  (f <> "__proto__" -> (f, v) ∈ ChantSearch.restrictions c') /\
  (f ∉ (ChantSearch.restrictions c).*1 -> f = "__proto__" ->
   ChantSearch.restrictions c' = ChantSearch.restrictions c) /\
  (forall k w, k <> f ->
     (k, w) ∈ ChantSearch.restrictions c' <->
     (k, w) ∈ ChantSearch.restrictions c) /\
  ChantSearch.query c' = ChantSearch.query c /\
  ChantSearch.field c' = ChantSearch.field c /\
  (NoDup (ChantSearch.restrictions c).*1 ->
   NoDup (ChantSearch.restrictions c').*1 /\
   (forall w, f <> "__proto__" ->
      (f, w) ∈ ChantSearch.restrictions c' -> w = v) /\
   length (ChantSearch.restrictions c') =
     if bool_decide (f ∈ (ChantSearch.restrictions c).*1 \/ f = "__proto__")
     then length (ChantSearch.restrictions c)
     else S (length (ChantSearch.restrictions c))).
Proof.
  cbn. split; [apply assign_elem_of |]. split.
  { intros Hnot Hp.
    destruct (assign_cases (ChantSearch.restrictions c) f v)
      as [[Hin _]|[(_ & _ & ->)|(_ & Hne & _)]]; done. }
  split; [intros; by apply assign_other |].
  split; [done |]. split; [done |]. intros Hnd.
  pose proof (assign_NoDup _ f v Hnd) as Hnd'.
  split; [done |]. split.
  - intros w Hf Hw. symmetry.
    eapply NoDup_keys_value; [exact Hnd' | by apply assign_elem_of | exact Hw].
  - rewrite <- !(length_fmap fst), assign_keys.
    by case_bool_decide.
Qed.

(** Without an active query [setRestriction] asks nothing of the
    collection (no fetch, no invalidation, no reset); the restriction is
    applied by the next search, whatever its query. *)
Theorem setRestriction_without_query (c : ChantSearch.t) (f v : string) :
  Js.truthy (ChantSearch.query c) = false ->
  f <> "__proto__" ->
  (setRestriction c f v).2 = [] /\
  (forall q, Js.truthy q = true ->
     exists qb,
       search (onSearch (setRestriction c f v).1 q) = [Fetch qb] /\
       Call (getSearchField f) (Js.Str v) None ∈ qb).
Proof.
  intros H Hf. unfold setRestriction. cbn [fst snd ChantSearch.query].
  rewrite H. split; [done |]. intros q Hq.
  unfold search, onSearch.
  cbn [ChantSearch.query ChantSearch.field ChantSearch.restrictions].
  rewrite Hq. cbn [negb]. eexists. split; [reflexivity |].
  rewrite applyRestrictions_calls. apply elem_of_app. right.
  by apply (list_elem_of_fmap_2 restrictionCall _ (f, v)), assign_elem_of.
Qed.

Lemma setRestriction_without_query_witness :
  (setRestriction (Controller Js.Undefined "all" []) "manuscript" "F-Pn").2 =
    [] /\
  exists qb,
    search
      (onSearch
         (setRestriction (Controller Js.Undefined "all" [])
            "manuscript" "F-Pn").1
         (Js.Str "amen")) = [Fetch qb] /\
    Call (getSearchField "manuscript") (Js.Str "F-Pn") None ∈ qb.
Proof.
  destruct (setRestriction_without_query
              (Controller Js.Undefined "all" []) "manuscript" "F-Pn" eq_refl)
    as [Hidle Hnext]; [discriminate |].
  split; [exact Hidle |]. apply (Hnext (Js.Str "amen")). reflexivity.
Defined.

(** With an active query [setRestriction] redoes the search at once: one
    fetch and nothing else, whose builder is the query's own call followed
    by the calls of the updated restrictions in the order the object
    enumerates them (array indices first, in ascending order, then the
    other names from oldest to newest), the new one among them. *)
Theorem setRestriction_with_query (c : ChantSearch.t) (f v : string) :
  Js.truthy (ChantSearch.query c) = true ->
  f <> "__proto__" ->
  exists own,
    search (Controller (ChantSearch.query c) (ChantSearch.field c) []) =
      [Fetch [own]] /\
    (setRestriction c f v).2 =
      [Fetch (own ::
              map restrictionCall
                (Js.assign (ChantSearch.restrictions c) f v))] /\
    Call (getSearchField f) (Js.Str v) None ∈
      map restrictionCall (Js.assign (ChantSearch.restrictions c) f v) /\
    (f ∉ (ChantSearch.restrictions c).*1 -> Js.arrayIndex f = None ->
     Js.assign (ChantSearch.restrictions c) f v =
       ChantSearch.restrictions c ++ [(f, v)]).
Proof.
  intros H Hf. unfold setRestriction. cbn [fst snd ChantSearch.query].
  rewrite H. unfold search.
  cbn [ChantSearch.query ChantSearch.field ChantSearch.restrictions].
  rewrite H. cbn [negb]. rewrite !applyRestrictions_calls.
  match goal with
  | |- context [setSearchQueryOnBuilder SolrQuery.new ?fld ?q] =>
      destruct (setSearchQueryOnBuilder_one_call SolrQuery.new fld q)
        as (own & -> & _)
  end.
  exists own. split; [done |]. split; [done |]. split.
  - by apply (list_elem_of_fmap_2 restrictionCall _ (f, v)), assign_elem_of.
  - intros Hnot Hidx.
    destruct (assign_cases (ChantSearch.restrictions c) f v)
      as [[Hin _]|[(_ & ? & _)|(_ & _ & ->)]]; [done | done |].
    unfold Js.create. by rewrite Hidx.
Qed.

Lemma setRestriction_with_query_witness :
  exists own,
    (setRestriction (Controller (Js.Str "amen") "all" [("manuscript", "F-Pn")])
       "manuscript" "CH-E 611").2 =
      [Fetch [own; Call "manuscript" (Js.Str "CH-E 611") None]].
Proof.
  destruct (setRestriction_with_query
              (Controller (Js.Str "amen") "all" [("manuscript", "F-Pn")])
              "manuscript" "CH-E 611" eq_refl)
    as (own & _ & Hcalls & _); [discriminate |].
  exists own. exact Hcalls.
Defined.

(** A restriction on a field whose name is an array index is sent before
    the restrictions on ordinary names, and none is kept for
    [__proto__]. *)
Example setRestriction_enumeration :
  (setRestriction (Controller (Js.Str "amen") "all" [("feast", "Pascha")])
     "7" "x").2 =
    [Fetch [Call "all" (Js.Str "amen") (Some "OR");
            Call "7" (Js.Str "x") None;
            Call "feast_t_hidden" (Js.Str "Pascha") None]] /\
  (setRestriction (Controller (Js.Str "amen") "all" [("feast", "Pascha")])
     "__proto__" "x").2 =
    [Fetch [Call "all" (Js.Str "amen") (Some "OR");
            Call "feast_t_hidden" (Js.Str "Pascha") None]].
Proof. split; reflexivity. Qed.

Lemma overwrite_overwrite (o : Js.object) (key v1 v2 : string) :
  Js.overwrite (Js.overwrite o key v1) key v2 = Js.overwrite o key v2.
Proof.
  induction o as [|[k w] o IH]; [done |]. cbn [Js.overwrite].
  destruct (String.eqb k key) eqn:E; cbn [Js.overwrite]; rewrite E; [done |].
  by rewrite IH.
Qed.

Lemma overwrite_absent (o : Js.object) (key v : string) :
  key ∉ o.*1 -> Js.overwrite o key v = o.
Proof.
  induction o as [|[k w] o IH]; [done |]. rewrite fmap_cons, not_elem_of_cons.
  cbn [Js.overwrite fst]. intros [Hne Hnot].
  destruct (String.eqb_spec k key) as [->|_]; [done |]. by rewrite IH.
Qed.

Lemma overwrite_insertIndex (n : N) (o : Js.object) (key v1 v2 : string) :
  key ∉ o.*1 ->
  Js.overwrite (Js.insertIndex n key v1 o) key v2 = Js.insertIndex n key v2 o.
Proof.
  induction o as [|[k w] o IH].
  - intros _. cbn. by rewrite String.eqb_refl.
  - rewrite fmap_cons, not_elem_of_cons. cbn [fst]. intros [Hne Hnot].
    cbn [Js.insertIndex].
    destruct (Js.arrayIndex k) as [m|].
    + destruct (m <? n)%N.
      * cbn [Js.overwrite].
        destruct (String.eqb_spec k key) as [->|_]; [done |].
        by rewrite IH.
      * cbn [Js.overwrite]. by rewrite String.eqb_refl.
    + cbn [Js.overwrite]. by rewrite String.eqb_refl.
Qed.

Lemma overwrite_create (o : Js.object) (key v1 v2 : string) :
  key ∉ o.*1 ->
  Js.overwrite (Js.create o key v1) key v2 = Js.create o key v2.
Proof.
  intros Hnot. unfold Js.create.
  destruct (Js.arrayIndex key) as [n|]; [by apply overwrite_insertIndex |].
  clear -Hnot. induction o as [|[k w] o IH].
  - cbn. by rewrite String.eqb_refl.
  - rewrite fmap_cons, not_elem_of_cons in Hnot. destruct Hnot as [Hne Hnot].
    cbn in Hne. cbn [app Js.overwrite].
    destruct (String.eqb_spec k key) as [->|_]; [done |]. by rewrite IH.
Qed.

Lemma assign_assign (o : Js.object) (key v1 v2 : string) :
  Js.assign (Js.assign o key v1) key v2 = Js.assign o key v2.
Proof.
  destruct (assign_cases o key v1)
    as [[Hin E1]|[(Hnot & Hp & E1)|(Hnot & Hp & E1)]];
    destruct (assign_cases o key v2)
      as [[Hin2 E2]|[(Hnot2 & Hp2 & E2)|(Hnot2 & Hp2 & E2)]];
    try done; rewrite E1, E2.
  - destruct (assign_cases (Js.overwrite o key v1) key v2)
      as [[_ ->]|[(Hn & _)|(Hn & _)]];
      [apply overwrite_overwrite | |]; by rewrite overwrite_keys in Hn.
  - by rewrite <- E2 at 1.
  - destruct (assign_cases (Js.create o key v1) key v2)
      as [[_ ->]|[(Hn & _)|(Hn & _)]]; [by apply overwrite_create | |];
      exfalso; apply Hn; rewrite create_Permutation, fmap_cons; left.
Qed.

Lemma NoDup_keys_only_pair (o : Js.object) (key v : string) :
  NoDup o.*1 -> (key, v) ∈ o ->
  filter (fun r => r.1 = key) o = [(key, v)].
Proof.
  unfold Js.object in *.
  induction o as [|[k w] o IH]; intros Hnd Hin; [inversion Hin |].
  rewrite fmap_cons in Hnd. apply NoDup_cons in Hnd as [Hnot Hnd].
  apply elem_of_cons in Hin as [E|Hin].
  - injection E as <- <-. rewrite filter_cons_True by done. f_equal.
    apply filter_none, Forall_forall. intros [k' w'] Hin E.
    simpl in *. subst k'. apply Hnot.
    apply list_elem_of_fmap. by exists (key, w').
  - rewrite filter_cons_False; [by apply IH |].
    cbn. intros ->. apply Hnot.
    apply list_elem_of_fmap. by exists (key, v).
Qed.

(** Setting a restriction again replaces it: the controller is the one
    the second call alone would give, and, field names being unique, a
    single pair is kept for the field, so the older value is no longer
    sent. *)
Theorem setRestriction_replaces (c : ChantSearch.t) (f v1 v2 : string) :
  (setRestriction (setRestriction c f v1).1 f v2).1 =
    (setRestriction c f v2).1 /\
  (NoDup (ChantSearch.restrictions c).*1 -> f <> "__proto__" ->
   filter (fun r => r.1 = f)
     (ChantSearch.restrictions
        (setRestriction (setRestriction c f v1).1 f v2).1) = [(f, v2)]).
Proof.
  unfold setRestriction.
  cbn [fst ChantSearch.query ChantSearch.field ChantSearch.restrictions].
  rewrite assign_assign. split; [done |]. intros Hnd Hf.
  apply NoDup_keys_only_pair; [by apply assign_NoDup | by apply assign_elem_of].
Qed.

(** *** The fields offered and shown *)

Lemma bool_filter_elem_of {A} (p : A -> bool) (l : list A) (x : A) :
  x ∈ List.filter p l <-> x ∈ l /\ p x = true.
Proof. rewrite !list_elem_of_In. apply filter_In. Qed.

Lemma bool_filter_sublist {A} (p : A -> bool) (l : list A) :
  List.filter p l `sublist_of` l.
Proof.
  induction l as [|x l IH]; simpl; [constructor |].
  destruct (p x); by constructor.
Qed.

#[local] Instance descriptor_eq_dec : EqDecision KnownFields.descriptor.
Proof. solve_decision. Defined.

Lemma KNOWN_FIELDS_NoDup : NoDup KnownFields.KNOWN_FIELDS.
Proof. apply (bool_decide_unpack _). vm_compute. exact I. Qed.

(** The additional result fields are the known fields whose type the
    option names, in the order of [KNOWN_FIELDS] and each at most once:
    the order of the option, repeated entries and unknown types make no
    difference, and without the option there is none.  The search fields
    on offer are the known fields except [manuscript]. *)
Theorem infoFields_selection (specified : option (list string)) :
  KnownFields.infoFields specified `sublist_of` KnownFields.KNOWN_FIELDS /\
  NoDup (KnownFields.infoFields specified) /\
  (forall d,
     d ∈ KnownFields.infoFields specified <->
     d ∈ KnownFields.KNOWN_FIELDS /\
     exists given, specified = Some given /\ KnownFields.type d ∈ given) /\
  (forall given given',
     (forall x, x ∈ given <-> x ∈ given') ->
     KnownFields.infoFields (Some given) =
       KnownFields.infoFields (Some given')) /\
  (forall d,
     d ∈ KnownFields.fields <->
     d ∈ KnownFields.KNOWN_FIELDS /\ KnownFields.type d <> "manuscript").
Proof.
  unfold KnownFields.infoFields, KnownFields.fields.
  split; [apply bool_filter_sublist |]. split.
  { eapply sublist_NoDup;
      eauto using bool_filter_sublist, KNOWN_FIELDS_NoDup. }
  split; [| split].
  - intros d. rewrite bool_filter_elem_of. destruct specified as [given|].
    + rewrite contains_elem_of. split.
      * intros [? ?]. eauto.
      * intros [? (given' & [= <-] & ?)]. done.
    + split; [intros [_ [=]] | intros [_ (? & [=] & _)]].
  - intros given given' Hsame. apply filter_ext. intros d.
    destruct (Js.contains given (KnownFields.type d)) eqn:E.
    + symmetry. apply contains_elem_of, Hsame, contains_elem_of, E.
    + destruct (Js.contains given' (KnownFields.type d)) eqn:E'; [| done].
      apply contains_elem_of, Hsame, contains_elem_of in E'. congruence.
  - intros d. rewrite bool_filter_elem_of, negb_true_iff, String.eqb_neq.
    done.
Qed.

(* ===================================================================== *)
(** * Further properties of the template bundler and loader *)
(* ===================================================================== *)

(** The number of double quotes and backslashes in a file name: the
    characters [escape] puts a backslash before. *)
Fixpoint escaped (file : string) : nat :=
  match file with
  | EmptyString => 0
  | String c rest =>
      if Ascii.eqb c "034" || Ascii.eqb c "092"
      then S (escaped rest) else escaped rest
  end.

Lemma escape_length (f : string) :
  String.length (escape f) = (String.length f + escaped f)%nat.
Proof.
  induction f as [|c f IH]; [done |]. cbn [escape escaped].
  destruct (Ascii.eqb c "034" || Ascii.eqb c "092"); simpl; rewrite IH; lia.
Qed.

Lemma escaped_le (f : string) : (escaped f <= String.length f)%nat.
Proof.
  induction f as [|c f IH]; [done |]. cbn [escaped].
  destruct (Ascii.eqb c "034" || Ascii.eqb c "092"); simpl; lia.
Qed.

Lemma escaped_zero (f : string) :
  escaped f = 0%nat <-> occurs "034" f = false /\ occurs "092" f = false.
Proof.
  induction f as [|c f IH]; [done |]. cbn [escaped occurs].
  destruct (Ascii.eqb c "034"), (Ascii.eqb c "092"); cbn [orb];
    try (split; [discriminate | intros [? ?]; discriminate]).
  exact IH.
Qed.

(** A file name comes out of [escape] unchanged exactly when it holds
    neither a double quote nor a backslash; in general it grows by exactly
    one character per double quote or backslash in it ([escaped] counts
    them), hence at most to twice its length. *)
Theorem escape_unchanged_iff (f : string) :
  (escape f = f <->
   occurs "034" f = false /\ occurs "092" f = false) /\
  String.length (escape f) = (String.length f + escaped f)%nat /\
  (escaped f <= String.length f)%nat /\
  (String.length f <= String.length (escape f) <= 2 * String.length f)%nat.
Proof.
  split; [| split; [apply escape_length | split; [apply escaped_le |]]].
  - rewrite <- escaped_zero. split.
    + intros E. apply (f_equal String.length) in E.
      rewrite escape_length in E. lia.
    + induction f as [|c f IH]; [done |]. cbn [escape escaped].
      destruct (Ascii.eqb c "034" || Ascii.eqb c "092"); [discriminate |].
      intros E. by rewrite IH.
  - rewrite escape_length. pose proof (escaped_le f). lia.
Qed.

(** Two different file names never get the same key in the bundle. *)
Theorem escape_injective (f g : string) : escape f = escape g -> f = g.
Proof.
  intros E. apply (f_equal literalValue) in E.
  rewrite !literalValue_escape in E. congruence.
Qed.

Lemma escape_injective_witness :
  String "a" (String "034" "b") = String "a" (String "034" "b").
Proof.
  apply (escape_injective (String "a" (String "034" "b"))
           (String "a" (String "034" "b"))).
  reflexivity.
Defined.

Lemma writeEntries_appends (len : Z) (templates : list source) :
  forall (index : Z) (s : stream),
    exists written,
      writeEntries len index templates s = s ++ written /\
      length written = length templates.
Proof.
  induction templates as [|src rest IH]; intros index s.
  - exists []. by rewrite app_nil_r.
  - cbn [writeEntries]. unfold write at 1.
    destruct (IH (index + 1) (s ++ [Js.quote +:+ escape (file src) +:+
                Js.quote +:+ ":" +:+ template src +:+
                (if index =? len - 1 then Js.newline
                 else "," +:+ Js.newline)]))
      as (written & -> & Hlen).
    eexists. rewrite <- app_assoc. split; [reflexivity |].
    simpl. by rewrite Hlen.
Qed.

(** [writeBundle] only appends to the stream: what was written before
    stays as it was, and it writes one chunk per template, one for the
    opening line and one for the closing line, preceded by one for the
    preface exactly when the options hold a non-empty one. *)
Theorem writeBundle_appends (templates : list source) (s : stream)
    (opts : option options) :
  exists written,
    writeBundle templates s opts = s ++ written /\
    length written =
      (length templates + 2 +
       match prefaceOf opts with Some _ => 1 | None => 0 end)%nat /\
    last written = Some ("};" +:+ Js.newline).
Proof.
  unfold writeBundle.
  destruct (prefaceOf opts) as [p|];
    match goal with
    | |- context [writeEntries ?len ?i templates ?s0] =>
        destruct (writeEntries_appends len templates i s0)
          as (written & -> & Hlen)
    end; unfold write.
  - exists ([p] ++ ["module.exports={" +:+ Js.newline] ++ written ++
            ["};" +:+ Js.newline]).
    split; [by rewrite <- !app_assoc |]. split.
    + rewrite !length_app. simpl. lia.
    + by rewrite !app_assoc, last_snoc.
  - exists (["module.exports={" +:+ Js.newline] ++ written ++
            ["};" +:+ Js.newline]).
    split; [by rewrite <- !app_assoc |]. split.
    + rewrite !length_app. simpl. lia.
    + by rewrite !app_assoc, last_snoc.
Qed.

Section TemplateFilesProperties.

Variable resolve : string -> string -> string.
Variable readdir : string -> option (list string).
Variable readFile : string -> option string.
Variable templateSource : string -> option string.

Let getTemplateSource :=
  TemplateFiles.getTemplateSource resolve readFile templateSource.
Let getTemplates :=
  TemplateFiles.getTemplates resolve readdir readFile templateSource.

(** When [getTemplates] succeeds, its result lists the entries of the
    directory one for one, in the order [readdir] gave them and under
    their own names (sub-directories are not entered); each carries the
    compiled text of the file of that name inside the directory. *)
Theorem getTemplates_lists_directory (templateDir : string)
    (sources : list source) :
  getTemplates templateDir = Some sources ->
  readdir templateDir = Some (map file sources) /\
  Forall
    (fun src =>
       cwd src = TemplateFiles.truthyPath (Some templateDir) /\
       exists data,
         readFile
           (resolve (Js.show "." (TemplateFiles.truthyPath (Some templateDir)))
              (file src)) = Some data /\
         templateSource data = Some (template src))
    sources.
Proof.
  unfold getTemplates, TemplateFiles.getTemplates.
  destruct (readdir templateDir) as [files|]; [| discriminate].
  intros H. apply mapM_Some in H.
  induction H as [|f src files sources Hsrc _ [IHfiles IHall]].
  - split; [done | constructor].
  - unfold TemplateFiles.getTemplateSource in Hsrc.
    destruct (readFile _) as [data|] eqn:Hread; [| discriminate].
    destruct (templateSource data) as [compiled|] eqn:Hc; [| discriminate].
    injection Hsrc as <-. injection IHfiles as ->.
    split; [done |]. constructor; [| done].
    split; [done |]. exists data. by split.
Qed.

(** [getTemplates] is all or nothing: it fails when the directory cannot
    be listed, and when it can, it succeeds exactly when every entry can
    be read and compiled -- a single unreadable entry (a sub-directory,
    say) or malformed template makes the whole bundle fail. *)
Theorem getTemplates_all_or_nothing (templateDir : string) :
  (readdir templateDir = None -> getTemplates templateDir = None) /\
  (forall files,
     readdir templateDir = Some files ->
     (is_Some (getTemplates templateDir) <->
      Forall (fun f => is_Some (getTemplateSource f (Some templateDir)))
        files) /\
     (forall sources,
        getTemplates templateDir = Some sources ->
        length sources = length files)).
Proof.
  unfold getTemplates, TemplateFiles.getTemplates. split.
  - by intros ->.
  - intros files ->. split; [apply mapM_is_Some |].
    intros sources H. apply mapM_Some in H.
    symmetry. by eapply Forall2_length.
Qed.

End TemplateFilesProperties.

Lemma getTemplates_lists_directory_witness :
  (if String.eqb "templates" "templates"
   then Some ["nav-tab.html"] else None) =
  Some
    (map file
       [Source "nav-tab.html" (Some "templates") "function(obj){<li></li>}"]).
Proof.
  apply (getTemplates_lists_directory
           (fun from to => from +:+ "/" +:+ to)
           (fun dir => if String.eqb dir "templates"
                       then Some ["nav-tab.html"] else None)
           (fun path => if String.eqb path "templates/nav-tab.html"
                        then Some "<li></li>" else None)
           (fun text => Some ("function(obj){" +:+ text +:+ "}"))
           "templates"
           [Source "nav-tab.html" (Some "templates")
              "function(obj){<li></li>}"]).
  reflexivity.
Defined.

(** *** The template loader *)

(** The leading hash of a template identifier is optional: an identifier
    and the same identifier behind a hash name the same file, so they load
    the same template or fail together.  Only one hash is dropped. *)
Theorem loadTemplate_hash_optional {template : Type}
    (templates : gmap string template) (id : string) :
  (forall rest, id <> String "#" rest) ->
  templateFile (String "#" id) = templateFile id /\
  (forall compiled,
     loadTemplate templates (String "#" id) = inr compiled <->
     loadTemplate templates id = inr compiled) /\
  ((exists err, loadTemplate templates (String "#" id) = inl err) <->
   (exists err, loadTemplate templates id = inl err)) /\
  templateFile (String "#" (String "#" id)) = "#" +:+ id +:+ ".html".
Proof.
  intros Hid.
  assert (templateFile (String "#" id) = templateFile id) as Hfile.
  { unfold templateFile, stripHash. cbn [Ascii.eqb Bool.eqb].
    destruct id as [|c id]; [done |].
    destruct (Ascii.eqb_spec c "#") as [->|_]; [by destruct (Hid id) | done]. }
  split; [done |]. unfold loadTemplate. rewrite Hfile.
  destruct (templates !! templateFile id) as [stored|].
  - split; [done |]. split; [| reflexivity].
    split; intros [err H]; discriminate H.
  - split; [| split; [| reflexivity]].
    + intros compiled. split; intros H; discriminate H.
    + split; intros _; eexists; reflexivity.
Qed.

Lemma loadTemplate_hash_optional_witness :
  templateFile "#nav-tab" = templateFile "nav-tab".
Proof.
  apply (loadTemplate_hash_optional (∅ : gmap string nat) "nav-tab").
  intros rest. discriminate.
Defined.

(* ===================================================================== *)
(** * Further properties of the notation search view *)
(* ===================================================================== *)

Section NotationSearchProperties.

Context {result : Type}.
Variable siteUrl : string.
Variable encodeURIComponent decodeURIComponent : string -> string.
Variable numberToString : Z -> string.
Implicit Types (v : @SearchNotationView.t result).

(** [newSearch] fetches exactly when the encoded query is not empty.
    With an empty query it issues no fetch, erases the highlights, shows
    the prompt and empties the pagination element, and keeps the field of
    the previous search.  Otherwise it issues one fetch, of the address
    built from the encoded query, the encoded field and the manuscript
    (the word [undefined] or [null] when the view holds no name), and
    touches neither the
    viewer nor the page: the previous highlights and results stay until
    the response arrives.  In both cases the paginator and the zoom
    history are left alone. *)
Theorem newSearch_fetches_unless_empty v (queryInput fieldInput : string) :
  let v' := newSearch siteUrl encodeURIComponent v queryInput fieldInput in
  SearchNotationView.query v' = Some (encodeURIComponent queryInput) /\
  paginator v' = paginator v /\
  manuscript v' = manuscript v /\
  zoomed (divaView v') = zoomed (divaView v) /\
  results (model v') = results (model v) /\
  (encodeURIComponent queryInput = EmptyString ->
   fetches (model v') = fetches (model v) /\
   highlights (divaView v') = [] /\
   dom v' = Document "<h4>Please enter a search query.</h4>" None /\
   SearchNotationView.field v' = SearchNotationView.field v) /\
  (encodeURIComponent queryInput <> EmptyString ->
   fetches (model v') =
     fetches (model v) ++
     [siteUrl +:+ "notation-search/?q=" +:+ encodeURIComponent queryInput +:+
      "&type=" +:+ encodeURIComponent fieldInput +:+ "&manuscript=" +:+
      Js.toString (manuscript v)] /\
   SearchNotationView.field v' = Some (encodeURIComponent fieldInput) /\
   divaView v' = divaView v /\
   dom v' = dom v).
Proof.
  cbn zeta. unfold newSearch.
  destruct (String.eqb_spec (encodeURIComponent queryInput) EmptyString)
    as [E|E].
  - unfold clearResults, paintBoxes.
    cbn [SearchNotationView.query SearchNotationView.field paginator
         manuscript divaView zoomed highlights model dom results fetches].
    repeat (split; [reflexivity |]).
    split; [intros _; repeat split | intros H; contradiction].
  - cbn [SearchNotationView.query SearchNotationView.field paginator
         manuscript divaView zoomed highlights model dom results fetches].
    repeat (split; [reflexivity |]).
    split; [intros H; contradiction | intros _; repeat split].
Qed.

(** [zoomToResult] asks the viewer for the result the paginator points
    at: the result at position [getPage() - 1] when the page lies between
    1 and the number of results, and [undefined] when it lies outside.  It
    changes nothing else, and throws when there is no paginator. *)
Theorem zoomToResult_bounds v :
  (paginator v = None -> zoomToResult v = None) /\
  (forall p, paginator v = Some p ->
   exists v' target,
     zoomToResult v = Some v' /\
     zoomed (divaView v') = zoomed (divaView v) ++ [target] /\
     highlights (divaView v') = highlights (divaView v) /\
     paginator v' = paginator v /\ dom v' = dom v /\ model v' = model v /\
     (1 <= getPage p <= Z.of_nat (length (results (model v))) ->
      is_Some target /\
      target = results (model v) !! Z.to_nat (getPage p - 1)) /\
     (getPage p < 1 \/ Z.of_nat (length (results (model v))) < getPage p ->
      target = None)).
Proof.
  unfold zoomToResult. split; [by intros -> |]. intros p ->.
  eexists. eexists. split; [reflexivity |]. cbn.
  repeat split; try reflexivity.
  - unfold Js.index. destruct (Z.ltb_spec (getPage p - 1) 0); [lia |].
    apply lookup_lt_is_Some. lia.
  - unfold Js.index. destruct (Z.ltb_spec (getPage p - 1) 0); [lia | done].
  - intros [Hlow|Hhigh]; unfold Js.index.
    + destruct (Z.ltb_spec (getPage p - 1) 0); [done | lia].
    + destruct (Z.ltb_spec (getPage p - 1) 0); [done |].
      apply lookup_ge_None. lia.
Qed.

(** Every synchronisation ends in the [TypeError] of [renderResults],
    and a later one supersedes an earlier one: the highlights, the
    paginator, the heading and the result attributes are the ones the
    later response alone would give, and the pagination element is still
    as it was before both.  Only the history grows: the viewer was zoomed
    to the first result of each response in turn, and the view listens to
    the paginator of each -- it never stops listening to the one it
    replaced. *)
Theorem sync_supersedes v (rs1 rs2 : list result) (n1 n2 : Z) :
  exists v1 v2 v2',
    sync decodeURIComponent numberToString v rs1 n1 = Threw v1 /\
    sync decodeURIComponent numberToString v1 rs2 n2 = Threw v2 /\
    sync decodeURIComponent numberToString v rs2 n2 = Threw v2' /\
    highlights (divaView v2) = highlights (divaView v2') /\
    paginator v2 = paginator v2' /\
    dom v2 = dom v2' /\
    notePagination (dom v2) = notePagination (dom v) /\
    model v2 = model v2' /\
    zoomed (divaView v2) = zoomed (divaView v) ++ [head rs1; head rs2] /\
    listening v2 =
      listening v ++ [Paginator "notation-paginator" 1 n1 1;
                      Paginator "notation-paginator" 1 n2 1].
Proof.
  eexists. eexists. eexists.
  split; [rewrite sync_result; unfold renderResults; reflexivity |].
  split; [rewrite sync_result; unfold renderResults; reflexivity |].
  split; [rewrite sync_result; unfold renderResults; reflexivity |].
  cbn [SearchNotationView.query SearchNotationView.field paginator
       manuscript divaView zoomed highlights model dom results fetches
       url listening SearchNotationView.numFound noteSearchResults
       notePagination].
  repeat (split; [reflexivity |]).
  split; by rewrite <- app_assoc.
Qed.

(** The heading written after a search quotes the query as it was
    typed: [newSearch] stores it encoded and [renderResults] decodes it
    again (the field, encoded as well, is shown as stored), with the
    number of results in front.  The callback then throws, and the
    pagination element is left as it was. *)
Theorem heading_after_search v (queryInput fieldInput : string)
    (rs : list result) (n : Z) :
  encodeURIComponent queryInput <> EmptyString ->
  decodeURIComponent (encodeURIComponent queryInput) = queryInput ->
  exists v',
    sync decodeURIComponent numberToString
      (newSearch siteUrl encodeURIComponent v queryInput fieldInput) rs n =
      Threw v' /\
    noteSearchResults (dom v') =
      "<h4>" +:+ numberToString n +:+ " results found for query " +:+
      Js.quote +:+ encodeURIComponent fieldInput +:+ ":" +:+ queryInput +:+
      Js.quote +:+ "</h4>" /\
    notePagination (dom v') = notePagination (dom v).
Proof.
  intros Hquery Hdecode. eexists.
  split; [rewrite sync_result; unfold renderResults; reflexivity |].
  unfold newSearch.
  apply String.eqb_neq in Hquery. rewrite Hquery.
  cbn [SearchNotationView.query SearchNotationView.field paginator
       manuscript divaView zoomed highlights model dom results fetches
       url listening SearchNotationView.numFound noteSearchResults
       notePagination Js.show].
  by rewrite Hdecode.
Qed.

End NotationSearchProperties.

Lemma heading_after_search_witness :
  exists v',
    sync (fun s => s) (fun _ => "2")
      (newSearch "/" (fun s => s)
         (View None None (ResultsModel [] 0 None []) (Diva [] []) None
            (Js.Text "cdn-hsmu-m2149l4") (Document EmptyString None) [])
         "1-2" "neumes")
      ["box 1"; "box 2"] 2 = Threw v' /\
    noteSearchResults (dom v') =
      "<h4>" +:+ "2" +:+ " results found for query " +:+
      Js.quote +:+ "neumes" +:+ ":" +:+ "1-2" +:+ Js.quote +:+ "</h4>".
Proof.
  destruct (heading_after_search "/" (fun s => s) (fun s => s)
              (fun _ => "2")
              (View None None (ResultsModel [] 0 None []) (Diva [] []) None
                 (Js.Text "cdn-hsmu-m2149l4") (Document EmptyString None) [])
              "1-2" "neumes" ["box 1"; "box 2"] 2)
    as (v' & Hsync & Hheading & _); [discriminate | reflexivity |].
  exists v'. split; [exact Hsync | exact Hheading].
Defined.

(* ===================================================================== *)
(** * The two groups of mode values *)
(* ===================================================================== *)

Lemma filter_split_Permutation {A} (P : A -> Prop)
    `{!forall x, Decision (P x)} (l : list A) :
  l ≡ₚ filter P l ++ filter (fun x => ~ P x) l.
Proof.
  induction l as [|x l IH]; [done |].
  destruct (decide (P x)) as [Hx|Hx].
  - rewrite filter_cons_True, (filter_cons_False (fun x => ~ P x)) by tauto.
    simpl. by constructor.
  - rewrite filter_cons_False, (filter_cons_True (fun x => ~ P x)) by done.
    rewrite <- Permutation_middle. by constructor.
Qed.

(** The loop that sorts the mode values loses none and invents none:
    every value of the query lands in exactly one of the two groups, the
    one-character values in the first and all others in the second, each
    group keeping the order of the query. *)
Theorem partitionModes_keeps_values (values : list string) :
  exists modeStringValues modeTextValues,
    partitionModes values [] [] = (modeStringValues, modeTextValues) /\
    values ≡ₚ modeStringValues ++ modeTextValues /\
    Forall singleCharacter modeStringValues /\
    Forall (fun v => ~ singleCharacter v) modeTextValues /\
    modeStringValues `sublist_of` values /\
    modeTextValues `sublist_of` values.
Proof.
  rewrite partitionModes_filter. cbn [app].
  eexists. eexists. split; [reflexivity |].
  split; [apply filter_split_Permutation |].
  split; [| split; [| split; apply sublist_filter]];
    apply Forall_forall; intros x Hx;
    by apply list_elem_of_filter in Hx as [? _].
Qed.
